(** * Starlink-Controller: telemetry classifier, log store, scheduler and
    HTTP dispatch of [server.py], embedded in Rocq.

    Python values are an inductive type, dictionaries are [gmap string],
    floats are IEEE binary64 ([PrimFloat]), the mutable locals of a function
    are threaded as an explicit state, and the outside world (the dish
    client, the clock, the log file) is an explicit argument. *)

From Stdlib Require Import Floats ZArith.
From stdpp Require Import gmap strings list fin_maps.

Set Warnings "-inexact-float".

(** ** Python values *)

Module Py.

Inductive value :=
| VNone
| VBool (b : bool)
| VInt (z : Z)
| VFloat (f : float)
| VStr (s : string)
| VList (l : list value)
| VDict (d : gmap string value).

Abbreviation dict := (gmap string value).

(** [bool(x)]: the truth value Python's [or] and [if] test. *)
Definition truthy (v : value) : bool :=
  match v with
  | VNone => false
  | VBool b => b
  | VInt z => negb (Z.eqb z 0)
  | VFloat f => negb (PrimFloat.eqb f 0%float)
  | VStr s => negb (String.eqb s "")
  | VList l => match l with [] => false | _ => true end
  | VDict d => negb (bool_decide (dom d = ∅))
  end.

(** [a or b] (the operands here are free of effects). *)
Definition or_ (a b : value) : value := if truthy a then a else b.

(** [x is None]. *)
Definition is_none (v : value) : bool :=
  match v with VNone => true | _ => false end.

(** [d.get(k)]. *)
Definition get (d : dict) (k : string) : value := default VNone (d !! k).

(** [int -> float]: round to nearest even; [None] is [OverflowError]. *)
Definition float_of_int (z : Z) : option float :=
  match binary_normalize prec emax z 0 false with
  | S754_infinity _ => None
  | sf => Some (SF2Prim sf)
  end.

(** The builtins whose algorithm is not re-implemented here. *)
Class Builtins := {
  (** [float(s)] on a [str]; [None] is [ValueError]. *)
  float_of_str : string → option float;
  (** [repr(x)], which [str(x)] returns for every value that is not a [str]. *)
  repr : value → string;
  (** [s.upper()]. *)
  upper : string → string;
  (** [format(x, ".nf")]. *)
  format_fixed : nat → float → string;
  (** [round(x, n)] on a float. *)
  round_to : float → Z → float;
}.

Section WithBuiltins.
Context `{!Builtins}.

(** [float(x)]; [None] when it raises. *)
Definition to_float (v : value) : option float :=
  match v with
  | VBool b => Some (if b then 1%float else 0%float)
  | VInt z => float_of_int z
  | VFloat f => Some f
  | VStr s => float_of_str s
  | VNone | VList _ | VDict _ => None
  end.

(** [str(x)]. *)
Definition str (v : value) : string :=
  match v with
  | VStr s => s
  | _ => repr v
  end.
End WithBuiltins.

(** [sep.join(l)]. *)
Fixpoint join (sep : string) (l : list string) : string :=
  match l with
  | [] => ""
  | [s] => s
  | s :: rest => s +:+ sep +:+ join sep rest
  end.

(** An instance for evaluating concrete runs. [upper] agrees with Python
    on ASCII strings; the others are placeholders: no string parses as a
    number, every number prints as [<num>], and rounding is the identity. *)
Definition ascii_upper_char (c : Ascii.ascii) : Ascii.ascii :=
  let n := Ascii.nat_of_ascii c in
  if (97 <=? n)%nat && (n <=? 122)%nat then Ascii.ascii_of_nat (n - 32) else c.

Fixpoint ascii_upper (s : string) : string :=
  match s with
  | EmptyString => EmptyString
  | String c r => String (ascii_upper_char c) (ascii_upper r)
  end.

Definition ascii_builtins : Builtins := {|
  float_of_str := fun _ => None;
  repr := fun _ => "<repr>";
  upper := ascii_upper;
  format_fixed := fun _ _ => "<num>";
  round_to := fun x _ => x;
|}.

End Py.
Import Py.

(** ** The nested lookup helper [g] of [check_alignment] and [do_status] *)

(** The loop of [g(d, *keys)]: [cur] walks down, [None] as soon as [cur] is
    not a dict or lacks the key. *)
Fixpoint g_from (cur : value) (keys : list string) : value :=
  match keys with
  | [] => cur
  | k :: rest =>
      match cur with
      | VDict d =>
          match d !! k with
          | Some v => g_from v rest
          | None => VNone
          end
      | _ => VNone
      end
  end.

Definition g (d : dict) (keys : list string) : value := g_from (VDict d) keys.

(** ** [check_alignment]: the rule-based classifier *)

Module Classifier.

(** The three strings the local [verdict] takes. *)
Inductive verdict_t := ALIGNED | NOT_OK | UNKNOWN.

#[export] Instance verdict_eq_dec : EqDecision verdict_t.
Proof. solve_decision. Defined.

(** The two locals the rules mutate. *)
Record locals := Locals { l_verdict : verdict_t; l_reasons : list string }.

(** The dict [check_alignment] returns, one field per key. *)
Record alignment := {
  aligned : bool;
  verdict : verdict_t;
  explain : string;
  dish_state : value;
  boresight_error_deg : option float;
  obstruction_fraction : option float;
  currently_obstructed : value;
  reasons : list string;
}.

Definition ok_states : list string := ["ONLINE"; "CONNECTED"].
Definition bad_states : list string :=
  ["STOWED"; "STOWING"; "UNSTOWING"; "BOOTING"; "STARTING"; "CALIBRATING";
   "SEARCHING"; "NO_SATS"; "IDLE"].

(** The [or]-chains that pick each raw field. *)
Definition resolve_dish_state (status_raw : dict) : value :=
  or_ (or_ (get status_raw "dish_state") (get status_raw "state"))
      (g status_raw ["status"; "dish_state"]).

Definition resolve_boresight (status_raw : dict) : value :=
  or_ (or_ (or_ (get status_raw "boresight_error_deg")
                (g status_raw ["alignment_stats"; "boresight_error_deg"]))
           (g status_raw ["pointing_stats"; "boresight_error_deg"]))
      (g status_raw ["pointing"; "boresight_error_deg"]).

Definition resolve_currently_obstructed (status_raw : dict) : value :=
  or_ (get status_raw "currently_obstructed")
      (g status_raw ["obstruction_stats"; "currently_obstructed"]).

Definition resolve_obstruction_fraction (status_raw : dict) : value :=
  or_ (or_ (get status_raw "obstruction_fraction")
           (g status_raw ["obstruction_stats"; "fraction_obstructed"]))
      (g status_raw ["obstruction_stats"; "obstruction_fraction"]).

Section Rules.
Context `{!Builtins}.

(** [str(dish_state).upper() if dish_state is not None else ""] *)
Definition dish_state_str (dish_state : value) : string :=
  if is_none dish_state then "" else upper (str dish_state).

(** Rule 1: the [if / elif / else] on the dish state. *)
Definition rule_state (s : string) (st : locals) : locals :=
  if bool_decide (s ∈ ok_states) then
    Locals ALIGNED (l_reasons st)
  else if bool_decide (s ∈ bad_states) || negb (String.eqb s "") then
    Locals NOT_OK (l_reasons st ++ ["state=" +:+ s])
  else
    Locals UNKNOWN (l_reasons st ++ ["state=unknown"]).

(** [boresight_val] / [obstruction_val]: set inside the [try], left
    [None] when the field is absent or [float()] raises. *)
Definition float_val (x : value) : option float :=
  if is_none x then None else to_float x.

(** Rule 2. *)
Definition rule_boresight (boresight : value) (st : locals) : locals :=
  match float_val boresight with
  | Some boresight_val =>
      if PrimFloat.ltb 2.5%float boresight_val then
        Locals NOT_OK
          (l_reasons st ++
             ["boresight>2.5deg (" +:+ format_fixed 2 boresight_val +:+ "°)"])
      else st
  | None => st
  end.

(** Rule 3: [currently_obstructed is True]. *)
Definition rule_obstructed (currently_obstructed : value) (st : locals) : locals :=
  match currently_obstructed with
  | VBool true => Locals NOT_OK (l_reasons st ++ ["currently_obstructed=true"])
  | _ => st
  end.

(** Rule 4. *)
Definition rule_obstruction (obstruction_fraction : value) (st : locals) : locals :=
  match float_val obstruction_fraction with
  | Some obstruction_val =>
      if PrimFloat.ltb 0.10%float obstruction_val then
        Locals NOT_OK
          (l_reasons st ++
             ["obstruction=HIGH (" +:+ format_fixed 3 obstruction_val +:+ ")"])
      else if PrimFloat.ltb 0.02%float obstruction_val then
        Locals NOT_OK
          (l_reasons st ++
             ["obstruction=MED (" +:+ format_fixed 3 obstruction_val +:+ ")"])
      else st
  | None => st
  end.

(** The rules in the order the function runs them. *)
Definition rules (status_raw : dict) : list (locals → locals) :=
  [ rule_state (dish_state_str (resolve_dish_state status_raw));
    rule_boresight (resolve_boresight status_raw);
    rule_obstructed (resolve_currently_obstructed status_raw);
    rule_obstruction (resolve_obstruction_fraction status_raw) ].

Definition init : locals := Locals UNKNOWN [].

(** The locals after the first [n] rules have run. *)
Definition after (n : nat) (status_raw : dict) : locals :=
  foldl (λ st rule, rule st) init (take n (rules status_raw)).

Definition check_alignment (status_raw : dict) : alignment :=
  let st := after 4 status_raw in
  let aligned := bool_decide (l_verdict st = ALIGNED) in
  let explain :=
    if aligned then "OK"
    else match l_reasons st with
         | [] => "Not okay"
         | _ => join "; " (l_reasons st)
         end in
  {| aligned := aligned;
     verdict := if aligned then ALIGNED
                else if bool_decide (l_verdict st ≠ UNKNOWN) then NOT_OK
                else UNKNOWN;
     explain := explain;
     dish_state := resolve_dish_state status_raw;
     boresight_error_deg := float_val (resolve_boresight status_raw);
     obstruction_fraction := float_val (resolve_obstruction_fraction status_raw);
     currently_obstructed := resolve_currently_obstructed status_raw;
     reasons := l_reasons st |}.
End Rules.

End Classifier.

(** ** [do_status], [do_keepalive], [do_reset_obstruction_map] *)

Module Facade.

(** The [summary] dict of [do_status], one field per key. *)
Record summary_t := {
  dish_state : value;
  pop_ping_latency_ms : value;
  pop_ping_drop_rate : value;
  downlink_throughput_bps : value;
  uplink_throughput_bps : value;
  obstruction_fraction : value;
  seconds_since_last_1s_outage : value;
  seconds_since_last_2s_outage : value;
  seconds_since_last_5s_outage : value;
}.

(** The dicts the three operations return: [ok] is always there, every
    other key is there or not. *)
Record response := {
  ok : bool;
  ts : option Z;
  summary : option summary_t;
  alignment : option Classifier.alignment;
  raw : option dict;
  error : option string;
}.

Definition ok_at (now : Z) : response :=
  {| ok := true; ts := Some now; summary := None; alignment := None;
     raw := None; error := None |}.

Definition failure (msg : string) : response :=
  {| ok := false; ts := None; summary := None; alignment := None;
     raw := None; error := Some msg |}.

(** What the dish client does when [do_status] runs. A raised exception
    is carried as its [str(e)], a returned status as [_pb_to_dict(st)]. *)
Inductive status_call :=
| StatusImportFails (e : string)
| StatusNoFunction
| StatusRaises (e : string)
| StatusReturns (raw : dict).

(** What the dish client does when [do_reset_obstruction_map] runs. *)
Inductive reset_call :=
| ResetImportFails (e : string)
| ResetNotFound
| ResetRaises (e : string)
| ResetReturns.

Definition summarize (raw : dict) : summary_t :=
  {| dish_state :=
       or_ (or_ (get raw "dish_state") (get raw "state"))
           (g raw ["status"; "dish_state"]);
     pop_ping_latency_ms :=
       or_ (get raw "pop_ping_latency_ms") (get raw "ping_latency_ms");
     pop_ping_drop_rate := get raw "pop_ping_drop_rate";
     downlink_throughput_bps :=
       or_ (get raw "downlink_throughput_bps") (get raw "download_throughput_bps");
     uplink_throughput_bps :=
       or_ (get raw "uplink_throughput_bps") (get raw "upload_throughput_bps");
     obstruction_fraction :=
       or_ (or_ (get raw "obstruction_fraction")
                (g raw ["obstruction_stats"; "fraction_obstructed"]))
           (g raw ["obstruction_stats"; "obstruction_fraction"]);
     seconds_since_last_1s_outage := get raw "seconds_since_last_1s_outage";
     seconds_since_last_2s_outage := get raw "seconds_since_last_2s_outage";
     seconds_since_last_5s_outage := get raw "seconds_since_last_5s_outage" |}.

Section Ops.
Context `{!Builtins}.

(** [now] is [int(time.time())] at the [return]. *)
Definition do_status (dish : status_call) (now : Z) : response :=
  match dish with
  | StatusImportFails e => failure ("Import starlink_grpc failed: " +:+ e)
  | StatusNoFunction =>
      failure "No status function found (get_status / dish_get_status)"
  | StatusRaises e => failure e
  | StatusReturns raw =>
      {| ok := true; ts := Some now;
         summary := Some (summarize raw);
         alignment := Some (Classifier.check_alignment raw);
         raw := Some raw; error := None |}
  end.

(** The two lines of [do_keepalive] after [r = do_status()]. *)
Definition keepalive_reply (r : response) (now : Z) : response :=
  if ok r then ok_at now
  else failure (default "keepalive failed" (error r)).

Definition do_keepalive (dish : status_call) (t_status now : Z) : response :=
  keepalive_reply (do_status dish t_status) now.
End Ops.

Definition do_reset_obstruction_map (dish : reset_call) (now : Z) : response :=
  match dish with
  | ResetImportFails e => failure ("Import starlink_grpc failed: " +:+ e)
  | ResetNotFound =>
      failure "reset_obstruction_map not found. Try: pip install --upgrade starlink-grpc-core"
  | ResetRaises e => failure e
  | ResetReturns => ok_at now
  end.

End Facade.

(** ** [log_obstruction_fraction_5min]: the rolling log file *)

Module LogStore.

Definition OBSTRUCTION_5MIN_PATH : string := "obstruction_5min.json".
Definition MAX_KEEP : nat := 2016.

(** A file that exists, by what reading it gives. *)
Inductive file :=
| Unreadable                    (* [open] or [read] raises *)
| Text (parsed : option value). (* readable text; [parsed] is what
                                   [json.load] returns, [None] when it raises
                                   (an empty or cut-off file, any other text) *)

(** The backing storage: the files by path (no entry: [os.path.exists] is
    false), and whether [open(OBSTRUCTION_5MIN_PATH, "w")] succeeds. *)
Record store := Store { files : gmap string file; writable : bool }.

Definition target (s : store) : option file := files s !! OBSTRUCTION_5MIN_PATH.

Definition put (f : file) (s : store) : store :=
  Store (<[OBSTRUCTION_5MIN_PATH := f]> (files s)) (writable s).

(** Lines 264-272: [data] after the guarded read. *)
Definition load (f : option file) : list value :=
  match f with
  | None => []
  | Some Unreadable => []
  | Some (Text None) => []
  | Some (Text (Some (VList data))) => data
  | Some (Text (Some _)) => []
  end.

(** [data[-n:]] for [n > 0]. *)
Definition last_n (n : nat) (data : list value) : list value :=
  drop (length data - n) data.

(** Lines 274-279: [data.append(entry)], then the cut to [MAX_KEEP]. *)
Definition append_bounded (data : list value) (entry : value) : list value :=
  let data := data ++ [entry] in
  if bool_decide (MAX_KEEP < length data) then last_n MAX_KEEP data else data.

(** [open(path, "w")]: raises ([None]) when the target cannot be opened
    for writing, else creates it or cuts it to length zero. *)
Definition open_w (s : store) : option store :=
  if writable s then Some (put (Text None) s) else None.

(** [json.dump(data, f, indent=2)] and the close of the [with] block. *)
Definition dump (data : list value) (s : store) : store :=
  put (Text (Some (VList data))) s.

(** Lines 264-282 on a given entry; [None] when the write raises. *)
Definition append (entry : value) (s : store) : option store :=
  let data := append_bounded (load (target s)) entry in
  s1 ← open_w s; Some (dump data s1).

(** The states of the storage a reader can find while [append] runs,
    in order, after the state it started from. *)
Definition append_trace (entry : value) (s : store) : list store :=
  let data := append_bounded (load (target s)) entry in
  match open_w s with
  | Some s1 => [s1; dump data s1]
  | None => []
  end.

(** Appending one entry after the other, each on what the last left. *)
Fixpoint append_all (entries : list value) (s : store) : option store :=
  match entries with
  | [] => Some s
  | e :: rest => s' ← append e s; append_all rest s'
  end.

Section Log.
Context `{!Builtins}.

Definition make_entry (timestamp : string) (obs_f : float) : value :=
  VDict {[ "timestamp" := VStr timestamp;
           "obstruction_fraction" := VFloat obs_f;
           "obstruction_percent" := VFloat (round_to (obs_f * 100)%float 3) ]}.

(** The value [obs] holds before [float(obs)]. *)
Definition pick_obs (status : Facade.response) : value :=
  let obs :=
    match Facade.summary status with
    | Some sm => Facade.obstruction_fraction sm
    | None => VNone
    end in
  if is_none obs then
    match Facade.alignment status with
    | Some al =>
        match Classifier.obstruction_fraction al with
        | Some f => VFloat f
        | None => VNone
        end
    | None => VNone
    end
  else obs.

(** [status] is what [do_status()] returned, [timestamp] the formatted
    [datetime.now(timezone.utc)]. [None] when an exception escapes. *)
Definition log_obstruction_fraction_5min
    (status : Facade.response) (timestamp : string) (s : store) : option store :=
  if negb (Facade.ok status) then Some s
  else
    let obs := pick_obs status in
    if is_none obs then Some s
    else match to_float obs with
         | None => Some s
         | Some obs_f => append (make_entry timestamp obs_f) s
         end.
End Log.

End LogStore.

(** ** [_bg_loop]: the scheduler *)

Module Scheduler.

Definition AUTO_KEEPALIVE_SEC : float := 120%float.
Definition OBSTRUCTION_5MIN_SEC : float := 300%float.
Definition RESET_TIMES : list string := ["00:00"; "12:00"].

(** The locals of [_bg_loop] that live across iterations. *)
Record sched := Sched {
  next_ka : float;
  next_obs_5min : float;
  last_reset_times : gset string;
}.

(** What one iteration finds outside: the clocks and what the dish
    client would answer to each call made in it. *)
Record world := {
  now : float;                  (* [time.time()] *)
  now_hm : string;              (* [strftime("%H:%M")] of the UTC time *)
  now_s : Z;                    (* [int(time.time())] inside the calls *)
  now_iso : string;             (* the entry's timestamp *)
  ka_dish : Facade.status_call;
  reset_dish : Facade.reset_call;
  obs_dish : Facade.status_call;
}.

(** The calls the loop makes. *)
Inductive event :=
| KeepAlive (r : Facade.response)
| Reset (hm : string) (r : Facade.response)
| ObsLog.

Definition is_reset (hm : string) (e : event) : bool :=
  match e with
  | Reset hm' _ => String.eqb hm hm'
  | _ => false
  end.

(** How often the reset ran for the instant [hm]. *)
Definition resets (hm : string) (evs : list event) : nat :=
  length (List.filter (is_reset hm) evs).

Section Loop.
Context `{!Builtins}.

(** [if now >= next_ka: ...] *)
Definition ka_step (w : world) (st : sched) : list event * sched :=
  if PrimFloat.leb (next_ka st) (now w) then
    ([KeepAlive (Facade.do_keepalive (ka_dish w) (now_s w) (now_s w))],
     Sched (now w + AUTO_KEEPALIVE_SEC)%float (next_obs_5min st)
           (last_reset_times st))
  else ([], st).

(** [if now_hm in RESET_TIMES and now_hm not in last_reset_times: ...] *)
Definition reset_step (w : world) (st : sched) : list event * sched :=
  if bool_decide (now_hm w ∈ RESET_TIMES)
     && negb (bool_decide (now_hm w ∈ last_reset_times st)) then
    ([Reset (now_hm w)
        (Facade.do_reset_obstruction_map (reset_dish w) (now_s w))],
     Sched (next_ka st) (next_obs_5min st)
           ({[now_hm w]} ∪ last_reset_times st))
  else ([], st).

(** [if now_hm == "00:01": last_reset_times.clear()] *)
Definition clear_step (w : world) (st : sched) : sched :=
  if String.eqb (now_hm w) "00:01" then
    Sched (next_ka st) (next_obs_5min st) ∅
  else st.

(** [if now >= next_obs_5min: ...]; [None] when the logging raises. *)
Definition obs_step (w : world) (st : sched) (fs : LogStore.store)
    : list event * option (sched * LogStore.store) :=
  if PrimFloat.leb (next_obs_5min st) (now w) then
    match LogStore.log_obstruction_fraction_5min
            (Facade.do_status (obs_dish w) (now_s w)) (now_iso w) fs with
    | Some fs' =>
        ([ObsLog],
         Some (Sched (next_ka st) (now w + OBSTRUCTION_5MIN_SEC)%float
                     (last_reset_times st), fs'))
    | None => ([], None)
    end
  else ([], Some (st, fs)).

(** One pass through the body of the [while]: the calls made, and the
    state for the next pass, [None] when an exception ends the loop. *)
Definition tick (w : world) (st : sched) (fs : LogStore.store)
    : list event * option (sched * LogStore.store) :=
  let '(ev_ka, st1) := ka_step w st in
  let '(ev_reset, st2) := reset_step w st1 in
  let st3 := clear_step w st2 in
  let '(ev_obs, next) := obs_step w st3 fs in
  (ev_ka ++ ev_reset ++ ev_obs, next).

(** The [while] loop, over the passes made before [_stop_bg] is set. *)
Fixpoint _bg_loop (ws : list world) (st : sched) (fs : LogStore.store)
    : list event * option (sched * LogStore.store) :=
  match ws with
  | [] => ([], Some (st, fs))
  | w :: rest =>
      match tick w st fs with
      | (evs, Some (st', fs')) =>
          let '(evs', final) := _bg_loop rest st' fs' in (evs ++ evs', final)
      | (evs, None) => (evs, None)
      end
  end.

(** The locals as set before the loop; [t0] and [t1] are the two
    readings of [time.time()] there. *)
Definition start (t0 t1 : float) : sched :=
  Sched (t0 + 2)%float (t1 + 5)%float ∅.
End Loop.

End Scheduler.

(** ** [Handler]: the HTTP dispatch *)

Module Http.

Inductive method := GET | POST.

Inductive body :=
| IndexHtml                          (* [INDEX_HTML.encode("utf-8")] *)
| JsonOf (r : Facade.response)       (* [json.dumps(r).encode("utf-8")] *)
| Bytes (s : string).

Record reply := { code : Z; content : body; ctype : string }.

(** [_send] answers with the status code, the content type and the body. *)
Definition _send (code : Z) (body : body) (ctype : string) : reply :=
  {| code := code; content := body; ctype := ctype |}.

Definition json_ctype : string := "application/json; charset=utf-8".

Definition send_json (r : Facade.response) : reply :=
  _send 200 (JsonOf r) json_ctype.

Definition not_found : reply :=
  _send 404 (Bytes "Not found") "text/plain; charset=utf-8".

(** What a handler finds outside while it serves one request. *)
Record world := {
  now_s : Z;
  status_dish : Facade.status_call;
  reset_dish : Facade.reset_call;
}.

Section Handlers.
Context `{!Builtins}.

(** [p] is [urlparse(self.path).path]. *)
Definition do_GET (p : string) (w : world) : reply :=
  if bool_decide (p ∈ ["/"; "/index.html"]) then
    _send 200 IndexHtml "text/html; charset=utf-8"
  else if String.eqb p "/api/health" then
    send_json (Facade.ok_at (now_s w))
  else if String.eqb p "/api/status" then
    send_json (Facade.do_status (status_dish w) (now_s w))
  else not_found.

Definition do_POST (p : string) (w : world) : reply :=
  if String.eqb p "/api/reset" then
    send_json (Facade.do_reset_obstruction_map (reset_dish w) (now_s w))
  else if String.eqb p "/api/keepalive" then
    send_json (Facade.do_keepalive (status_dish w) (now_s w) (now_s w))
  else not_found.

Definition handle (m : method) (p : string) (w : world) : reply :=
  match m with
  | GET => do_GET p w
  | POST => do_POST p w
  end.
End Handlers.

(** The rows of the API table. *)
Definition api_routes : list (method * string) :=
  [(GET, "/api/health"); (GET, "/api/status");
   (POST, "/api/keepalive"); (POST, "/api/reset")].

End Http.

(** ** The dish client behind the operations: [_pb_to_dict],
    [_get_context] and the calls of [do_status] and
    [do_reset_obstruction_map] *)

Module Client.

Definition DISH_TARGET : string := "192.168.100.1:9200".

(** A [ChannelContext] object, by the target it was built for. *)
Inductive context := ChannelContext (target : string).

(** What calling into the client does; an exception is carried as its
    [str(e)]. *)
Inductive call (A : Type) :=
| Returns (a : A)
| RaisesTypeError (e : string)
| Raises (e : string).
Arguments Returns {A} a.
Arguments RaisesTypeError {A} e.
Arguments Raises {A} e.

(** What a piece of the source yields: a value, or an exception that
    leaves it. *)
Inductive outcome (A : Type) :=
| Fine (a : A)
| Exception (e : string).
Arguments Fine {A} a.
Arguments Exception {A} e.

(** A function of the client, by what [fn(ctx)] and [fn()] do. *)
Record callable (A : Type) := {
  with_ctx : context → call A;
  without_ctx : call A;
}.
Arguments with_ctx {A} c ctx.
Arguments without_ctx {A} c.

(** An object the status call returns, by what [_pb_to_dict] asks of it. *)
Record pyobj := {
  descriptor : bool;              (* [hasattr(obj, "DESCRIPTOR")] *)
  message_to_dict : option dict;  (* [MessageToDict(obj, ...)], [None] when
                                     it raises *)
  as_dict : option dict;          (* the object, when [isinstance(obj, dict)] *)
  obj_repr : string;              (* [repr(obj)] *)
}.

(** The module [starlink_grpc], by the attributes the source reads; a
    function that is absent or not callable is [None]. *)
Record module := {
  channel_context : option (string → call context);
  get_status : option (callable pyobj);
  dish_get_status : option (callable pyobj);
  reset_obstruction_map : option (callable unit);
}.

(** [protobuf] says whether the import of [MessageToDict] succeeds. *)
Definition _pb_to_dict (protobuf : bool) (obj : pyobj) : dict :=
  match (if protobuf && descriptor obj then message_to_dict obj else None) with
  | Some d => d
  | None =>
      match as_dict obj with
      | Some d => d
      | None => {[ "_repr" := VStr (obj_repr obj) ]}
      end
  end.

(** [_context] is the global before the call; the result comes with the
    global after it. *)
Definition _get_context (m : module) (_context : option context)
    : outcome (option context) * option context :=
  match _context with
  | Some c => (Fine (Some c), _context)
  | None =>
      match channel_context m with
      | None => (Fine None, None)
      | Some ctx_cls =>
          match ctx_cls DISH_TARGET with
          | Returns c => (Fine (Some c), Some c)
          | RaisesTypeError _ => (Fine None, None)
          | Raises e => (Exception e, None)
          end
      end
  end.

Definition outcome_of {A} (r : call A) : outcome A :=
  match r with
  | Returns a => Fine a
  | RaisesTypeError e => Exception e
  | Raises e => Exception e
  end.

(** [fn(ctx)], with [fn()] after a [TypeError], when there is a context;
    [fn()] when there is none. *)
Definition call_fn {A} (fn : callable A) (ctx : option context) : outcome A :=
  match ctx with
  | Some c =>
      match with_ctx fn c with
      | Returns a => Fine a
      | RaisesTypeError _ => outcome_of (without_ctx fn)
      | Raises e => Exception e
      end
  | None => outcome_of (without_ctx fn)
  end.

(** [get_status] when callable, else [dish_get_status]. *)
Definition status_fn (m : module) : option (callable pyobj) :=
  match get_status m with
  | Some fn => Some fn
  | None => dish_get_status m
  end.

(** The part of [do_status] that talks to the client; [imported] is what
    [import starlink_grpc] gives. *)
Definition fetch_status (imported : outcome module) (protobuf : bool)
    (_context : option context) : Facade.status_call * option context :=
  match imported with
  | Exception e => (Facade.StatusImportFails e, _context)
  | Fine m =>
      match _get_context m _context with
      | (Exception e, _context') => (Facade.StatusRaises e, _context')
      | (Fine ctx, _context') =>
          match status_fn m with
          | None => (Facade.StatusNoFunction, _context')
          | Some fn =>
              match call_fn fn ctx with
              | Fine st =>
                  (Facade.StatusReturns (_pb_to_dict protobuf st), _context')
              | Exception e => (Facade.StatusRaises e, _context')
              end
          end
      end
  end.

(** The part of [do_reset_obstruction_map] that talks to the client. *)
Definition perform_reset (imported : outcome module)
    (_context : option context) : Facade.reset_call * option context :=
  match imported with
  | Exception e => (Facade.ResetImportFails e, _context)
  | Fine m =>
      match reset_obstruction_map m with
      | None => (Facade.ResetNotFound, _context)
      | Some fn =>
          match _get_context m _context with
          | (Exception e, _context') => (Facade.ResetRaises e, _context')
          | (Fine ctx, _context') =>
              match call_fn fn ctx with
              | Fine _ => (Facade.ResetReturns, _context')
              | Exception e => (Facade.ResetRaises e, _context')
              end
          end
      end
  end.

Section Ops.
Context `{!Builtins}.

(** [do_status], [do_keepalive] and [do_reset_obstruction_map] on the
    client: the response and the global [_context] afterwards. *)
Definition do_status (imported : outcome module) (protobuf : bool)
    (_context : option context) (now : Z)
    : Facade.response * option context :=
  let '(dish, _context') := fetch_status imported protobuf _context in
  (Facade.do_status dish now, _context').

Definition do_keepalive (imported : outcome module) (protobuf : bool)
    (_context : option context) (now : Z)
    : Facade.response * option context :=
  let '(r, _context') := do_status imported protobuf _context now in
  (Facade.keepalive_reply r now, _context').
End Ops.

Definition do_reset_obstruction_map (imported : outcome module)
    (_context : option context) (now : Z)
    : Facade.response * option context :=
  let '(dish, _context') := perform_reset imported _context in
  (Facade.do_reset_obstruction_map dish now, _context').

End Client.

(** ** Vocabulary of the properties *)

(** The alternative key-paths of each field, in the order the source
    tries them. *)
Module Paths.
Definition dish_state : list (list string) :=
  [["dish_state"]; ["state"]; ["status"; "dish_state"]].
Definition pop_ping_latency_ms : list (list string) :=
  [["pop_ping_latency_ms"]; ["ping_latency_ms"]].
Definition pop_ping_drop_rate : list (list string) :=
  [["pop_ping_drop_rate"]].
Definition downlink_throughput_bps : list (list string) :=
  [["downlink_throughput_bps"]; ["download_throughput_bps"]].
Definition uplink_throughput_bps : list (list string) :=
  [["uplink_throughput_bps"]; ["upload_throughput_bps"]].
Definition obstruction_fraction : list (list string) :=
  [["obstruction_fraction"]; ["obstruction_stats"; "fraction_obstructed"];
   ["obstruction_stats"; "obstruction_fraction"]].
Definition seconds_since_last_1s_outage : list (list string) :=
  [["seconds_since_last_1s_outage"]].
Definition seconds_since_last_2s_outage : list (list string) :=
  [["seconds_since_last_2s_outage"]].
Definition seconds_since_last_5s_outage : list (list string) :=
  [["seconds_since_last_5s_outage"]].
Definition boresight_error_deg : list (list string) :=
  [["boresight_error_deg"]; ["alignment_stats"; "boresight_error_deg"];
   ["pointing_stats"; "boresight_error_deg"];
   ["pointing"; "boresight_error_deg"]].
Definition currently_obstructed : list (list string) :=
  [["currently_obstructed"]; ["obstruction_stats"; "currently_obstructed"]].
End Paths.

(** What each key-path resolves to in [raw] ([None] when absent). *)
Definition at_paths (raw : dict) (paths : list (list string)) : list value :=
  map (g raw) paths.

(** The resolution as the specification words it: the value at the first
    key-path that is present, falsy or not. *)
Fixpoint first_present (alts : list value) : value :=
  match alts with
  | [] => VNone
  | v :: rest => if is_none v then first_present rest else v
  end.

(** The resolution an [or]-chain performs: the first alternative that is
    truthy, and the last alternative when none before it is. *)
Inductive FirstTruthy : list value → value → Prop :=
| ft_hit v rest : truthy v = true → FirstTruthy (v :: rest) v
| ft_last v : FirstTruthy [v] v
| ft_skip v w rest r :
    truthy v = false → FirstTruthy (w :: rest) r → FirstTruthy (v :: w :: rest) r.

Fixpoint first_truthy (alts : list value) : value :=
  match alts with
  | [] => VNone
  | [v] => v
  | v :: rest => if truthy v then v else first_truthy rest
  end.

(** A payload whose first obstruction key-path holds a present zero. *)
Definition zero_then_half : dict :=
  {[ "obstruction_fraction" := VFloat 0%float;
     "obstruction_stats" := VDict {[ "fraction_obstructed" := VFloat 0.5%float ]} ]}.

(** Whether each rule of the classifier found something wrong, and the
    entry it records then, read off the raw payload. *)
Section FailedRules.
Context `{!Builtins}.
Import Classifier.

Definition fails_state (status_raw : dict) : bool :=
  negb (bool_decide (dish_state_str (resolve_dish_state status_raw) ∈ ok_states)).

Definition state_reason (status_raw : dict) : string :=
  let s := dish_state_str (resolve_dish_state status_raw) in
  if String.eqb s "" then "state=unknown" else "state=" +:+ s.

Definition fails_boresight (status_raw : dict) : bool :=
  match float_val (resolve_boresight status_raw) with
  | Some v => PrimFloat.ltb 2.5%float v
  | None => false
  end.

Definition boresight_reason (status_raw : dict) : string :=
  match float_val (resolve_boresight status_raw) with
  | Some v => "boresight>2.5deg (" +:+ format_fixed 2 v +:+ "°)"
  | None => ""
  end.

Definition fails_obstructed (status_raw : dict) : bool :=
  match resolve_currently_obstructed status_raw with
  | VBool true => true
  | _ => false
  end.

Definition fails_obstruction (status_raw : dict) : bool :=
  match float_val (resolve_obstruction_fraction status_raw) with
  | Some v => PrimFloat.ltb 0.10%float v || PrimFloat.ltb 0.02%float v
  | None => false
  end.

Definition obstruction_reason (status_raw : dict) : string :=
  match float_val (resolve_obstruction_fraction status_raw) with
  | Some v =>
      (if PrimFloat.ltb 0.10%float v then "obstruction=HIGH (" else "obstruction=MED (")
      +:+ format_fixed 3 v +:+ ")"
  | None => ""
  end.
End FailedRules.

(** A dish that reports itself connected but points 3 degrees off. *)
Definition connected_off_axis : dict :=
  {[ "dish_state" := VStr "CONNECTED"; "boresight_error_deg" := VFloat 3%float ]}.

(** A payload on the boresight limit with 5% obstruction. *)
Definition on_the_limit : dict :=
  {[ "state" := VStr "online";
     "pointing" := VDict {[ "boresight_error_deg" := VFloat 2.5%float ]};
     "obstruction_fraction" := VFloat 0.05%float ]}.

(** A pass at midnight UTC during which the dish cannot be reached. *)
Definition midnight_pass : Scheduler.world :=
  {| Scheduler.now := 1000%float;
     Scheduler.now_hm := "00:00";
     Scheduler.now_s := 1000;
     Scheduler.now_iso := "2024-01-01T00:00:16Z";
     Scheduler.ka_dish := Facade.StatusRaises "unreachable";
     Scheduler.reset_dish := Facade.ResetRaises "unreachable";
     Scheduler.obs_dish := Facade.StatusRaises "unreachable" |}.

(** A storage without a log file, in a directory that can be written. *)
Definition fresh_store : LogStore.store := LogStore.Store ∅ true.

(** Two log entries, as the logger builds them. *)
Definition entry_a : value :=
  @LogStore.make_entry ascii_builtins "2024-01-01T00:00:00Z" 0.01%float.
Definition entry_b : value :=
  @LogStore.make_entry ascii_builtins "2024-01-01T00:05:00Z" 0.05%float.


(** The log file holds a valid log of one entry. *)
Definition one_entry_store : LogStore.store :=
  LogStore.Store
    {[ LogStore.OBSTRUCTION_5MIN_PATH :=
         LogStore.Text (Some (VList [entry_a])) ]} true.

(** 2020 entries that differ in their timestamps. *)
Definition many_entries : list value :=
  map (λ i, VDict {[ "timestamp" := VInt (Z.of_nat i) ]}) (seq 0 2020).

(** The two paths that serve the dashboard page. *)
Definition page_routes : list (Http.method * string) :=
  [(Http.GET, "/"); (Http.GET, "/index.html")].

(** The top-level keys of a payload that the summary or the classifier
    reads. *)
Definition recognised_keys : list string :=
  ["dish_state"; "state"; "status";
   "pop_ping_latency_ms"; "ping_latency_ms"; "pop_ping_drop_rate";
   "downlink_throughput_bps"; "download_throughput_bps";
   "uplink_throughput_bps"; "upload_throughput_bps";
   "obstruction_fraction"; "obstruction_stats";
   "seconds_since_last_1s_outage"; "seconds_since_last_2s_outage";
   "seconds_since_last_5s_outage";
   "boresight_error_deg"; "alignment_stats"; "pointing_stats"; "pointing";
   "currently_obstructed"].

(** The summary in which every field is absent. *)
Definition empty_summary : Facade.summary_t :=
  {| Facade.dish_state := VNone;
     Facade.pop_ping_latency_ms := VNone;
     Facade.pop_ping_drop_rate := VNone;
     Facade.downlink_throughput_bps := VNone;
     Facade.uplink_throughput_bps := VNone;
     Facade.obstruction_fraction := VNone;
     Facade.seconds_since_last_1s_outage := VNone;
     Facade.seconds_since_last_2s_outage := VNone;
     Facade.seconds_since_last_5s_outage := VNone |}.

(** The result of the classifier when it finds nothing to go by. *)
Definition unknown_alignment : Classifier.alignment :=
  {| Classifier.aligned := false;
     Classifier.verdict := Classifier.UNKNOWN;
     Classifier.explain := "state=unknown";
     Classifier.dish_state := VNone;
     Classifier.boresight_error_deg := None;
     Classifier.obstruction_fraction := None;
     Classifier.currently_obstructed := VNone;
     Classifier.reasons := ["state=unknown"] |}.

(** An alternative that an [or]-chain and a test for presence treat alike:
    absent, or present and truthy. *)
Definition plain (v : value) : Prop := v = VNone ∨ truthy v = true.

(** Whether one of the rules 2 to 4 found something wrong. *)
Definition later_rule_fails `{!Builtins} (raw : dict) : bool :=
  fails_boresight raw || fails_obstructed raw || fails_obstruction raw.

(** A payload of the newest naming, all fields set and truthy. *)
Definition healthy : dict :=
  {[ "dish_state" := VStr "CONNECTED";
     "pop_ping_latency_ms" := VFloat 31.5%float;
     "obstruction_fraction" := VFloat 0.01%float ]}.

(** An object that is neither a protobuf message nor a dict. *)
Definition opaque_object : Client.pyobj :=
  {| Client.descriptor := false;
     Client.message_to_dict := None;
     Client.as_dict := None;
     Client.obj_repr := "<object object at 0x7f>" |}.

(** The shape of a response: a success carries a timestamp and no error;
    a failure carries an error and nothing else. *)
Definition well_formed (r : Facade.response) : Prop :=
  if Facade.ok r then
    is_Some (Facade.ts r) ∧ Facade.error r = None
  else
    is_Some (Facade.error r) ∧ Facade.ts r = None
    ∧ Facade.summary r = None ∧ Facade.alignment r = None
    ∧ Facade.raw r = None.

(** What a status function that is called without a context leads to. *)
Definition status_without_ctx (protobuf : bool)
    (fn : Client.callable Client.pyobj) : Facade.status_call :=
  match Client.without_ctx fn with
  | Client.Returns st => Facade.StatusReturns (Client._pb_to_dict protobuf st)
  | Client.RaisesTypeError e => Facade.StatusRaises e
  | Client.Raises e => Facade.StatusRaises e
  end.

(** A status object that is a plain dict. *)
Definition dict_object (d : dict) : Client.pyobj :=
  {| Client.descriptor := false;
     Client.message_to_dict := None;
     Client.as_dict := Some d;
     Client.obj_repr := "{...}" |}.

(** A client of an older version: no [ChannelContext], no [get_status],
    and a [dish_get_status] that takes no argument. *)
Definition legacy_module : Client.module :=
  {| Client.channel_context := None;
     Client.get_status := None;
     Client.dish_get_status :=
       Some {| Client.with_ctx :=
                 λ _, Client.RaisesTypeError "takes 0 positional arguments";
               Client.without_ctx := Client.Returns (dict_object healthy) |};
     Client.reset_obstruction_map := None |}.

(** A client of the current version. *)
Definition current_module : Client.module :=
  {| Client.channel_context := Some (λ t, Client.Returns (Client.ChannelContext t));
     Client.get_status :=
       Some {| Client.with_ctx := λ _, Client.Returns (dict_object healthy);
               Client.without_ctx := Client.Raises "no channel" |};
     Client.dish_get_status := None;
     Client.reset_obstruction_map :=
       Some {| Client.with_ctx := λ _, Client.Returns ();
               Client.without_ctx := Client.Raises "no channel" |} |}.

(** How often the loop called the keep-alive. *)
Definition is_keepalive (e : Scheduler.event) : bool :=
  match e with
  | Scheduler.KeepAlive _ => true
  | _ => false
  end.

Definition keepalives (evs : list Scheduler.event) : nat :=
  length (List.filter is_keepalive evs).

(** A storage that cannot be written, without a log file. *)
Definition read_only_store : LogStore.store := LogStore.Store ∅ false.

(** A pass in the afternoon with a reachable dish that reports [healthy],
    and the pass one minute later. *)
Definition afternoon_pass : Scheduler.world :=
  {| Scheduler.now := 5000%float;
     Scheduler.now_hm := "15:30";
     Scheduler.now_s := 5000;
     Scheduler.now_iso := "2024-01-01T15:30:00Z";
     Scheduler.ka_dish := Facade.StatusReturns healthy;
     Scheduler.reset_dish := Facade.ResetReturns;
     Scheduler.obs_dish := Facade.StatusReturns healthy |}.

Definition minute_later_pass : Scheduler.world :=
  {| Scheduler.now := 5060%float;
     Scheduler.now_hm := "15:31";
     Scheduler.now_s := 5060;
     Scheduler.now_iso := "2024-01-01T15:31:00Z";
     Scheduler.ka_dish := Facade.StatusReturns healthy;
     Scheduler.reset_dish := Facade.ResetReturns;
     Scheduler.obs_dish := Facade.StatusReturns healthy |}.

(** The locals of the loop with both deadlines passed, and with both
    deadlines far ahead. *)
Definition all_due : Scheduler.sched := Scheduler.Sched 0%float 0%float ∅.
Definition none_due : Scheduler.sched :=
  Scheduler.Sched 9000%float 9000%float ∅.

(** The method a handler was not written for. *)
Definition other_method (m : Http.method) : Http.method :=
  match m with
  | Http.GET => Http.POST
  | Http.POST => Http.GET
  end.

(** How often the loop called the reset, for whatever minute. *)
Definition is_any_reset (e : Scheduler.event) : bool :=
  match e with
  | Scheduler.Reset _ _ => true
  | _ => false
  end.

Definition all_resets (evs : list Scheduler.event) : nat :=
  length (List.filter is_any_reset evs).

(** An event the loop can make: a reset is for a minute of [RESET_TIMES]. *)
Definition reset_at_reset_time (e : Scheduler.event) : Prop :=
  match e with
  | Scheduler.Reset hm _ => hm ∈ Scheduler.RESET_TIMES
  | _ => True
  end.

(** The pass at noon, and a request as a handler finds it. *)
Definition noon_pass : Scheduler.world :=
  {| Scheduler.now := 43200%float;
     Scheduler.now_hm := "12:00";
     Scheduler.now_s := 43200;
     Scheduler.now_iso := "2024-01-01T12:00:00Z";
     Scheduler.ka_dish := Facade.StatusReturns healthy;
     Scheduler.reset_dish := Facade.ResetReturns;
     Scheduler.obs_dish := Facade.StatusReturns healthy |}.

Definition reachable_dish : Http.world :=
  {| Http.now_s := 1700000000;
     Http.status_dish := Facade.StatusReturns healthy;
     Http.reset_dish := Facade.ResetReturns |}.


(** * Properties *)

(** ** Key-path resolution *)

Lemma get_is_g (raw : dict) (k : string) : get raw k = g raw [k].
Proof. unfold get, g. simpl. by destruct (raw !! k). Qed.

Lemma first_truthy_sound (alts : list value) :
  alts ≠ [] → FirstTruthy alts (first_truthy alts).
Proof.
  induction alts as [|v [|w rest] IH]; intros Hne; [done | apply ft_last |].
  change (first_truthy (v :: w :: rest))
    with (if truthy v then v else first_truthy (w :: rest)).
  destruct (truthy v) eqn:Hv.
  - by apply ft_hit.
  - apply ft_skip; [done | by apply IH].
Qed.

Lemma or2_first_truthy (a b : value) : or_ a b = first_truthy [a; b].
Proof. reflexivity. Qed.

Lemma or3_first_truthy (a b c : value) :
  or_ (or_ a b) c = first_truthy [a; b; c].
Proof.
  unfold or_. simpl.
  destruct (truthy a) eqn:Ha, (truthy b) eqn:Hb; by rewrite ?Ha, ?Hb.
Qed.

Lemma or4_first_truthy (a b c d : value) :
  or_ (or_ (or_ a b) c) d = first_truthy [a; b; c; d].
Proof.
  rewrite (or3_first_truthy a b c). unfold or_. simpl.
  destruct (truthy a) eqn:Ha, (truthy b) eqn:Hb, (truthy c) eqn:Hc;
    by rewrite ?Ha, ?Hb, ?Hc.
Qed.

Section Resolution.
Context `{!Builtins}.

Ltac by_first_truthy :=
  rewrite ?get_is_g;
  first [ rewrite or4_first_truthy | rewrite or3_first_truthy
        | rewrite or2_first_truthy | apply ft_last ];
  by apply first_truthy_sound.

(** C1 (as amended): every field of the summary, and every raw field the
    classifier resolves, is the value at the first of its ordered
    key-paths that resolves to a truthy value; a present but falsy value
    is passed over like an absent one, and when no earlier key-path is
    truthy the field is whatever the last key-path resolves to. The
    classifier returns the boresight error and the obstruction fraction
    after [float()]. *)
Theorem resolution_takes_first_truthy (raw : dict) :
  let sm := Facade.summarize raw in
  let al := Classifier.check_alignment raw in
  FirstTruthy (at_paths raw Paths.dish_state) (Facade.dish_state sm)
  ∧ FirstTruthy (at_paths raw Paths.pop_ping_latency_ms)
      (Facade.pop_ping_latency_ms sm)
  ∧ FirstTruthy (at_paths raw Paths.pop_ping_drop_rate)
      (Facade.pop_ping_drop_rate sm)
  ∧ FirstTruthy (at_paths raw Paths.downlink_throughput_bps)
      (Facade.downlink_throughput_bps sm)
  ∧ FirstTruthy (at_paths raw Paths.uplink_throughput_bps)
      (Facade.uplink_throughput_bps sm)
  ∧ FirstTruthy (at_paths raw Paths.obstruction_fraction)
      (Facade.obstruction_fraction sm)
  ∧ FirstTruthy (at_paths raw Paths.seconds_since_last_1s_outage)
      (Facade.seconds_since_last_1s_outage sm)
  ∧ FirstTruthy (at_paths raw Paths.seconds_since_last_2s_outage)
      (Facade.seconds_since_last_2s_outage sm)
  ∧ FirstTruthy (at_paths raw Paths.seconds_since_last_5s_outage)
      (Facade.seconds_since_last_5s_outage sm)
  ∧ FirstTruthy (at_paths raw Paths.dish_state) (Classifier.dish_state al)
  ∧ FirstTruthy (at_paths raw Paths.currently_obstructed)
      (Classifier.currently_obstructed al)
  ∧ (∃ v, FirstTruthy (at_paths raw Paths.boresight_error_deg) v
          ∧ Classifier.boresight_error_deg al = Classifier.float_val v)
  ∧ (∃ v, FirstTruthy (at_paths raw Paths.obstruction_fraction) v
          ∧ Classifier.obstruction_fraction al = Classifier.float_val v).
Proof.
  cbv zeta. unfold at_paths. simpl.
  unfold Classifier.resolve_dish_state, Classifier.resolve_currently_obstructed.
  repeat split; try by_first_truthy.
  - exists (Classifier.resolve_boresight raw). split; [|done].
    unfold Classifier.resolve_boresight. by_first_truthy.
  - exists (Classifier.resolve_obstruction_fraction raw). split; [|done].
    unfold Classifier.resolve_obstruction_fraction. by_first_truthy.
Qed.
End Resolution.

(** C1 (as stated) fails: with a present [0.0] at the first obstruction
    key-path and [0.5] at the second, the first present value is [0.0], yet
    the summary and the classifier both report [0.5]. *)
Lemma resolution_skips_present_zero :
  first_present (at_paths zero_then_half Paths.obstruction_fraction)
    = VFloat 0%float
  ∧ Facade.obstruction_fraction (Facade.summarize zero_then_half)
    = VFloat 0.5%float
  ∧ Classifier.obstruction_fraction
      (@Classifier.check_alignment ascii_builtins zero_then_half)
    = Some 0.5%float.
Proof. by vm_compute. Qed.

(** ** Binary64 comparisons *)

Lemma SFcompare_swap (a b : spec_float) (c : comparison) :
  SFcompare a b = Some c → SFcompare b a = Some (CompOpp c).
Proof.
  destruct a as [sa|sa| |sa ma ea], b as [sb|sb| |sb mb eb]; simpl;
    intros Hc; try discriminate; injection Hc as <-;
    try (by destruct sa); try (by destruct sb); try (by destruct sa, sb).
  destruct sa, sb; try done; f_equal;
    rewrite (Z.compare_antisym ea eb); destruct (ea ?= eb)%Z; simpl; try done.
  - f_equal. symmetry. apply (Pos.compare_cont_antisym ma mb Eq).
  - symmetry. apply (Pos.compare_cont_antisym ma mb Eq).
Qed.

(** [x <= y] rules out [y < x]. *)
Lemma leb_not_ltb (x y : float) :
  PrimFloat.leb x y = true → PrimFloat.ltb y x = false.
Proof.
  rewrite leb_spec, ltb_spec. unfold SFleb, SFltb.
  destruct (SFcompare (Prim2SF x) (Prim2SF y)) as [c|] eqn:Hc; [|done].
  rewrite (SFcompare_swap _ _ _ Hc). by destruct c.
Qed.

(** ** The classifier *)

Section ClassifierFacts.
Context `{!Builtins}.
Import Classifier.

Lemma after_1 raw :
  after 1 raw = rule_state (dish_state_str (resolve_dish_state raw)) init.
Proof. reflexivity. Qed.

Lemma after_2 raw :
  after 2 raw = rule_boresight (resolve_boresight raw) (after 1 raw).
Proof. reflexivity. Qed.

Lemma after_3 raw :
  after 3 raw = rule_obstructed (resolve_currently_obstructed raw) (after 2 raw).
Proof. reflexivity. Qed.

Lemma after_4 raw :
  after 4 raw = rule_obstruction (resolve_obstruction_fraction raw) (after 3 raw).
Proof. reflexivity. Qed.

Lemma after_ge_4 raw n : after (4 + n) raw = after 4 raw.
Proof. unfold after. simpl. by rewrite take_nil. Qed.

(** Rules 2 to 4 never assign anything but [NOT_OK]. *)
Lemma rule_boresight_keeps x st :
  l_verdict st = NOT_OK → l_verdict (rule_boresight x st) = NOT_OK.
Proof.
  intros Hst. unfold rule_boresight.
  destruct (float_val x) as [v|]; [|done]. by destruct (2.5 <? v)%float.
Qed.

Lemma rule_obstructed_keeps x st :
  l_verdict st = NOT_OK → l_verdict (rule_obstructed x st) = NOT_OK.
Proof. intros Hst. by destruct x as [|[]| | | | |]. Qed.

Lemma rule_obstruction_keeps x st :
  l_verdict st = NOT_OK → l_verdict (rule_obstruction x st) = NOT_OK.
Proof.
  intros Hst. unfold rule_obstruction.
  destruct (float_val x) as [v|]; [|done].
  by destruct (0.10 <? v)%float, (0.02 <? v)%float.
Qed.

Lemma verdict_of_not_ok raw :
  l_verdict (after 4 raw) = NOT_OK → verdict (check_alignment raw) = NOT_OK.
Proof. unfold check_alignment. simpl. by intros ->. Qed.

(** C2: whichever of the four rules leaves the local verdict at
    [NOT_OK], the verdict [check_alignment] returns is [NOT_OK]. *)
Theorem verdict_monotone (raw : dict) (n : nat) :
  l_verdict (after n raw) = NOT_OK →
  verdict (check_alignment raw) = NOT_OK.
Proof.
  intros Hn. apply verdict_of_not_ok.
  destruct n as [|[|[|[|n]]]].
  - discriminate Hn.
  - rewrite after_4, after_3, after_2.
    by apply rule_obstruction_keeps, rule_obstructed_keeps, rule_boresight_keeps.
  - rewrite after_4, after_3.
    by apply rule_obstruction_keeps, rule_obstructed_keeps.
  - rewrite after_4. by apply rule_obstruction_keeps.
  - by rewrite <- (after_ge_4 raw n).
Qed.

Lemma empty_not_bad : bool_decide ("" ∈ bad_states) = false.
Proof. by vm_compute. Qed.

(** C3: [aligned] says exactly that the verdict is [ALIGNED]; a verdict
    other than [ALIGNED] comes with at least one reason; and the reasons
    are the entries of the rules that failed, one for each, in the order of
    the rules. *)
Theorem verdict_invariant (raw : dict) :
  let r := check_alignment raw in
  (aligned r = true ↔ verdict r = ALIGNED)
  ∧ (verdict r ≠ ALIGNED → reasons r ≠ [])
  ∧ reasons r =
      (if fails_state raw then [state_reason raw] else [])
      ++ (if fails_boresight raw then [boresight_reason raw] else [])
      ++ (if fails_obstructed raw then ["currently_obstructed=true"] else [])
      ++ (if fails_obstruction raw then [obstruction_reason raw] else []).
Proof.
  cbv zeta. unfold check_alignment, fails_state, fails_boresight,
    fails_obstructed, fails_obstruction, state_reason, boresight_reason,
    obstruction_reason.
  cbn [aligned verdict reasons].
  rewrite after_4, after_3, after_2, after_1.
  unfold rule_state, rule_boresight, rule_obstructed, rule_obstruction, init.
  set (s := dish_state_str (resolve_dish_state raw)).
  set (b := float_val (resolve_boresight raw)).
  set (c := resolve_currently_obstructed raw).
  set (o := float_val (resolve_obstruction_fraction raw)).
  assert (bool_decide (s ∈ bad_states) || negb (String.eqb s "")
          = negb (String.eqb s "")) as ->.
  { destruct (String.eqb_spec s "") as [->|]; [|apply orb_true_r].
    by rewrite empty_not_bad. }
  destruct (bool_decide (s ∈ ok_states)); [| destruct (String.eqb s "")];
    (destruct b as [bv|]; [destruct (2.5 <? bv)%float|]);
    (destruct o as [ov|];
       [destruct (0.10 <? ov)%float, (0.02 <? ov)%float |]);
    destruct c as [|[]| | | | |]; cbn;
    (split; [split; [intros; done | intros; done] |]);
    (split; [intros; done | reflexivity]).
Qed.

(** C4: the limits are strict. A boresight error of exactly 2.5 leaves
    the verdict and the reasons as rule 1 left them, 2.5001 sets [NOT_OK]
    and adds the boresight reason. An obstruction fraction of exactly 0.02
    adds no reason; one above 0.02 and at most 0.10 (0.10 itself
    included) adds the MED reason, not the HIGH one; one above 0.10 adds
    the HIGH reason. *)
Theorem thresholds_are_strict (raw : dict) (b o : float) :
  let med := "obstruction=MED (" +:+ format_fixed 3 o +:+ ")" in
  let high := "obstruction=HIGH (" +:+ format_fixed 3 o +:+ ")" in
  let r := check_alignment raw in
  (float_val (resolve_boresight raw) = Some b →
   (b = 2.5%float → after 2 raw = after 1 raw)
   ∧ (b = 2.5001%float →
      after 2 raw =
        Locals NOT_OK
          (l_reasons (after 1 raw)
             ++ ["boresight>2.5deg (" +:+ format_fixed 2 b +:+ "°)"])))
  ∧ (float_val (resolve_obstruction_fraction raw) = Some o →
     (o = 0.02%float → reasons r = l_reasons (after 3 raw))
     ∧ ((0.02 <? o)%float = true → (o <=? 0.10)%float = true →
        reasons r = l_reasons (after 3 raw) ++ [med] ∧ verdict r = NOT_OK)
     ∧ (o = 0.10%float →
        reasons r = l_reasons (after 3 raw) ++ [med] ∧ verdict r = NOT_OK)
     ∧ ((0.10 <? o)%float = true →
        reasons r = l_reasons (after 3 raw) ++ [high] ∧ verdict r = NOT_OK)).
Proof.
  intros med high r. split.
  - intros Hb.
    assert (after 2 raw =
            if (2.5 <? b)%float then
              Locals NOT_OK
                (l_reasons (after 1 raw)
                   ++ ["boresight>2.5deg (" +:+ format_fixed 2 b +:+ "°)"])
            else after 1 raw) as H2.
    { rewrite after_2. unfold rule_boresight. by rewrite Hb. }
    split; intros ->; rewrite H2.
    + by vm_compute (2.5 <? 2.5)%float.
    + by vm_compute (2.5 <? 2.5001)%float.
  - intros Ho.
    assert (reasons r = l_reasons (after 4 raw)) as -> by done.
    assert (∀ x, after 4 raw = Locals NOT_OK x → verdict r = NOT_OK) as Hv.
    { intros x Hx. apply verdict_of_not_ok. by rewrite Hx. }
    assert (after 4 raw =
            if (0.10 <? o)%float then
              Locals NOT_OK (l_reasons (after 3 raw) ++ [high])
            else if (0.02 <? o)%float then
              Locals NOT_OK (l_reasons (after 3 raw) ++ [med])
            else after 3 raw) as H4.
    { rewrite after_4. unfold rule_obstruction. by rewrite Ho. }
    assert ((0.02 <? o)%float = true → (0.10 <? o)%float = false →
            l_reasons (after 4 raw) = l_reasons (after 3 raw) ++ [med]
            ∧ verdict r = NOT_OK) as Hmed.
    { intros Hlo Hhi. rewrite Hhi, Hlo in H4. split; [by rewrite H4 |].
      by apply (Hv _ H4). }
    split.
    { intros ->. rewrite H4.
      by vm_compute (0.10 <? 0.02)%float; vm_compute (0.02 <? 0.02)%float. }
    split; [intros Hlo Hle; apply Hmed; [done | by apply leb_not_ltb] |].
    split; [intros ->; by apply Hmed |].
    intros Hhi. rewrite Hhi in H4. split; [by rewrite H4 |]. by apply (Hv _ H4).
Qed.
End ClassifierFacts.

(** C2 at a payload: rule 1 says [ALIGNED], rule 2 then says [NOT_OK],
    and [NOT_OK] is what comes back. *)
Lemma verdict_monotone_witness :
  Classifier.l_verdict (@Classifier.after ascii_builtins 1 connected_off_axis)
    = Classifier.ALIGNED
  ∧ Classifier.l_verdict (@Classifier.after ascii_builtins 2 connected_off_axis)
    = Classifier.NOT_OK
  ∧ Classifier.verdict (@Classifier.check_alignment ascii_builtins connected_off_axis)
    = Classifier.NOT_OK.
Proof.
  split; [by vm_compute | split; [by vm_compute |]].
  apply (@verdict_monotone ascii_builtins connected_off_axis 2). by vm_compute.
Defined.

(** C4 at a payload with a boresight error of 2.5 and 5% obstruction:
    only the MED reason is recorded. *)
Lemma thresholds_are_strict_witness :
  @Classifier.after ascii_builtins 2 on_the_limit
    = @Classifier.after ascii_builtins 1 on_the_limit
  ∧ Classifier.reasons (@Classifier.check_alignment ascii_builtins on_the_limit)
    = ["obstruction=MED (<num>)"].
Proof.
  destruct (@thresholds_are_strict ascii_builtins on_the_limit
              2.5%float 0.05%float) as [Hb Ho].
  destruct (Hb eq_refl) as [H1 _]. destruct (Ho eq_refl) as (_ & H4 & _).
  split; [by apply H1 |].
  destruct H4 as [H4 _]; [by vm_compute | by vm_compute |].
  rewrite H4. by vm_compute.
Defined.

(** ** The scheduler *)

Section SchedulerFacts.
Context `{!Builtins}.
Import Scheduler.

Lemma resets_app hm a b : resets hm (a ++ b) = resets hm a + resets hm b.
Proof. unfold resets. by rewrite List.filter_app, length_app. Qed.

(** The reset runs in a pass exactly when the minute is one of
    [RESET_TIMES] and is not in the set yet. *)
Lemma tick_resets hm w st fs :
  resets hm (tick w st fs).1 =
    if String.eqb hm (now_hm w)
       && bool_decide (now_hm w ∈ RESET_TIMES)
       && negb (bool_decide (now_hm w ∈ last_reset_times st))
    then 1 else 0.
Proof.
  unfold tick, ka_step, reset_step, clear_step, obs_step.
  destruct (next_ka st <=? now w)%float; cbn [last_reset_times];
    destruct (bool_decide (now_hm w ∈ RESET_TIMES));
    destruct (bool_decide (now_hm w ∈ last_reset_times st));
    cbn [andb negb];
    destruct (String.eqb (now_hm w) "00:01");
    cbn [next_obs_5min];
    destruct (next_obs_5min st <=? now w)%float;
    try destruct (LogStore.log_obstruction_fraction_5min _ _ _);
    cbn; rewrite ?andb_false_r; try done;
    by destruct (String.eqb hm (now_hm w)).
Qed.

(** The set a pass leaves behind. *)
Lemma tick_fired w st fs evs st' fs' :
  tick w st fs = (evs, Some (st', fs')) →
  last_reset_times st' =
    if String.eqb (now_hm w) "00:01" then ∅
    else if bool_decide (now_hm w ∈ RESET_TIMES)
         then {[now_hm w]} ∪ last_reset_times st
         else last_reset_times st.
Proof.
  unfold tick, ka_step, reset_step, clear_step, obs_step.
  destruct (next_ka st <=? now w)%float; cbn [last_reset_times];
    destruct (bool_decide (now_hm w ∈ RESET_TIMES));
    case_bool_decide as Hin;
    cbn [andb negb];
    destruct (String.eqb (now_hm w) "00:01");
    cbn [next_obs_5min];
    destruct (next_obs_5min st <=? now w)%float;
    try destruct (LogStore.log_obstruction_fraction_5min _ _ _);
    cbn; intros [= <- <- <-]; cbn; try done; set_solver.
Qed.

(** The keep-alive part of a pass leaves the set alone, so the deadline
    of the next keep-alive can be read off the pass. *)
Lemma tick_next_ka w st fs evs st' fs' :
  tick w st fs = (evs, Some (st', fs')) →
  next_ka st' = next_ka (ka_step w st).2.
Proof.
  unfold tick, ka_step, reset_step, clear_step, obs_step.
  destruct (next_ka st <=? now w)%float; cbn [last_reset_times];
    destruct (bool_decide (now_hm w ∈ RESET_TIMES));
    destruct (bool_decide (now_hm w ∈ last_reset_times st));
    cbn [andb negb];
    destruct (String.eqb (now_hm w) "00:01");
    cbn [next_obs_5min];
    destruct (next_obs_5min st <=? now w)%float;
    try destruct (LogStore.log_obstruction_fraction_5min _ _ _);
    cbn; by intros [= <- <- <-].
Qed.

Lemma run_cons w ws st fs :
  _bg_loop (w :: ws) st fs =
    match tick w st fs with
    | (evs, Some (st', fs')) =>
        ((evs ++ (_bg_loop ws st' fs').1), (_bg_loop ws st' fs').2)
    | (evs, None) => (evs, None)
    end.
Proof.
  cbn [_bg_loop]. destruct (tick w st fs) as [evs [[st' fs']|]]; [|done].
  by destruct (_bg_loop ws st' fs').
Qed.

(** Between two clearings of the set, an instant that is in the set does
    not run again, and one that is not runs at most once. *)
Lemma run_resets_bound hm ws st fs :
  Forall (λ w, now_hm w ≠ "00:01") ws →
  resets hm (_bg_loop ws st fs).1
    ≤ (if bool_decide (hm ∈ last_reset_times st) then 0 else 1).
Proof.
  intros Hws. revert st fs.
  induction Hws as [|w ws Hw _ IH]; intros st fs.
  { cbn. lia. }
  rewrite run_cons.
  pose proof (tick_resets hm w st fs) as Ht.
  destruct (tick w st fs) as [evs [[st' fs']|]] eqn:Htick; cbn [fst] in *.
  - rewrite resets_app, Ht.
    pose proof (tick_fired _ _ _ _ _ _ Htick) as Hf.
    apply String.eqb_neq in Hw. rewrite Hw in Hf.
    specialize (IH st' fs').
    destruct (String.eqb hm (now_hm w)) eqn:Hhm; cbn [andb].
    + apply String.eqb_eq in Hhm. subst hm.
      destruct (bool_decide (now_hm w ∈ RESET_TIMES)) eqn:Hr; cbn [andb].
      * assert (now_hm w ∈ last_reset_times st') as Hin
          by (rewrite Hf; set_solver).
        rewrite (bool_decide_eq_true_2 _ Hin) in IH.
        case_bool_decide; cbn; lia.
      * rewrite Hf in IH. cbn. by destruct (bool_decide _).
    + destruct (decide (hm ∈ last_reset_times st)) as [Hin|Hin].
      * assert (hm ∈ last_reset_times st') as Hin'.
        { rewrite Hf. case_bool_decide; set_solver. }
        rewrite (bool_decide_eq_true_2 _ Hin') in IH.
        rewrite (bool_decide_eq_true_2 _ Hin). lia.
      * rewrite (bool_decide_eq_false_2 _ Hin).
        destruct (bool_decide (hm ∈ last_reset_times st')); lia.
  - rewrite Ht.
    destruct (String.eqb hm (now_hm w)) eqn:Hhm; cbn [andb]; [|lia].
    apply String.eqb_eq in Hhm. subst hm.
    destruct (bool_decide (now_hm w ∈ RESET_TIMES)); cbn [andb]; [|lia].
    case_bool_decide; cbn; lia.
Qed.

Lemma watch_point_not_reset_time : "00:01" ∉ RESET_TIMES.
Proof. apply (bool_decide_eq_false _). by vm_compute. Qed.

(** Passes in other minutes do not put [hm] into the set. *)
Lemma run_keeps_unfired hm ws st fs evs st' fs' :
  Forall (λ w, now_hm w ≠ hm) ws →
  hm ∉ last_reset_times st →
  _bg_loop ws st fs = (evs, Some (st', fs')) →
  hm ∉ last_reset_times st'.
Proof.
  intros Hws. revert st fs evs.
  induction Hws as [|w ws Hw _ IH]; intros st fs evs Hst.
  { by intros [= _ <- _]. }
  rewrite run_cons.
  destruct (tick w st fs) as [e1 [[st1 fs1]|]] eqn:Htick; [|done].
  intros [= _ Hrun].
  apply (IH st1 fs1 (_bg_loop ws st1 fs1).1).
  - rewrite (tick_fired _ _ _ _ _ _ Htick).
    destruct (String.eqb (now_hm w) "00:01"); [set_solver|].
    case_bool_decide; set_solver.
  - destruct (_bg_loop ws st1 fs1); cbn in *; congruence.
Qed.

Lemma run_once_in_minute hm w ws st fs :
  hm ∈ RESET_TIMES →
  hm ∉ last_reset_times st →
  Forall (λ w, now_hm w = hm) (w :: ws) →
  resets hm (_bg_loop (w :: ws) st fs).1 = 1.
Proof.
  intros Hhm Hst Hws.
  apply Forall_cons in Hws as [Hw Hws].
  assert (hm ≠ "00:01") as Hne.
  { intros ->. by apply watch_point_not_reset_time. }
  rewrite run_cons.
  pose proof (tick_resets hm w st fs) as Ht.
  rewrite Hw, String.eqb_refl, (bool_decide_eq_true_2 _ Hhm),
    (bool_decide_eq_false_2 _ Hst) in Ht. cbn in Ht.
  destruct (tick w st fs) as [evs [[st' fs']|]] eqn:Htick; cbn [fst] in *;
    [|done].
  rewrite resets_app, Ht.
  assert (hm ∈ last_reset_times st') as Hin.
  { rewrite (tick_fired _ _ _ _ _ _ Htick), Hw.
    apply String.eqb_neq in Hne. rewrite Hne.
    rewrite (bool_decide_eq_true_2 _ Hhm). set_solver. }
  assert (Forall (λ w, now_hm w ≠ "00:01") ws) as Hws'.
  { eapply Forall_impl; [exact Hws|]. by intros ? ->. }
  pose proof (run_resets_bound hm ws st' fs' Hws') as Hle.
  rewrite (bool_decide_eq_true_2 _ Hin) in Hle. lia.
Qed.

(** C5: for an instant [hm] of [RESET_TIMES]: between two clearings of
    the set the reset runs at most once for it; in a stretch of passes
    that all read the minute [hm], starting with [hm] not in the set, it
    runs exactly once; after a pass in that minute [hm] is in the set,
    whatever the reset answered; and a pass that reads "00:01" empties
    the set, so that after it, and after any passes in other minutes, the
    next stretch of passes in the minute [hm] runs the reset once again. *)
Theorem reset_fires_once_per_instant (hm : string) :
  hm ∈ RESET_TIMES →
  (∀ ws st fs,
     Forall (λ w, now_hm w ≠ "00:01") ws → resets hm (_bg_loop ws st fs).1 ≤ 1)
  ∧ (∀ w ws st fs,
       hm ∉ last_reset_times st →
       Forall (λ w, now_hm w = hm) (w :: ws) →
       resets hm (_bg_loop (w :: ws) st fs).1 = 1)
  ∧ (∀ w st,
       now_hm w = hm →
       hm ∈ last_reset_times (reset_step w st).2
       ∧ ∀ fs evs st' fs',
           tick w st fs = (evs, Some (st', fs')) → hm ∈ last_reset_times st')
  ∧ (∀ w1 st fs evs1 st1 fs1,
       now_hm w1 = "00:01" →
       tick w1 st fs = (evs1, Some (st1, fs1)) →
       last_reset_times st1 = ∅
       ∧ ∀ mid evs2 st2 fs2 w ws,
           Forall (λ w, now_hm w ≠ hm) mid →
           _bg_loop mid st1 fs1 = (evs2, Some (st2, fs2)) →
           Forall (λ w, now_hm w = hm) (w :: ws) →
           resets hm (_bg_loop (w :: ws) st2 fs2).1 = 1).
Proof.
  intros Hhm.
  assert (hm ≠ "00:01") as Hne.
  { intros ->. by apply watch_point_not_reset_time. }
  split; [|split; [|split]].
  - intros ws st fs Hws.
    pose proof (run_resets_bound hm ws st fs Hws).
    destruct (bool_decide (hm ∈ last_reset_times st)); lia.
  - intros w ws st fs. by apply run_once_in_minute.
  - intros w st Hw. split.
    + unfold reset_step. rewrite Hw, (bool_decide_eq_true_2 _ Hhm).
      case_bool_decide; cbn; set_solver.
    + intros fs evs st' fs' Htick.
      rewrite (tick_fired _ _ _ _ _ _ Htick), Hw.
      apply String.eqb_neq in Hne. rewrite Hne.
      rewrite (bool_decide_eq_true_2 _ Hhm). set_solver.
  - intros w1 st fs evs1 st1 fs1 Hw1 Htick.
    assert (last_reset_times st1 = ∅) as Hempty.
    { by rewrite (tick_fired _ _ _ _ _ _ Htick), Hw1. }
    split; [done|].
    intros mid evs2 st2 fs2 w ws Hmid Hrun Hws.
    apply run_once_in_minute; [done | | done].
    eapply run_keeps_unfired; [exact Hmid | | exact Hrun].
    rewrite Hempty. set_solver.
Qed.

End SchedulerFacts.

(** C5 at sixty passes within the minute "00:00", every reset failing:
    the reset is called once. *)
Lemma reset_fires_once_per_instant_witness :
  "00:00" ∈ Scheduler.RESET_TIMES
  ∧ Scheduler.resets "00:00"
      (@Scheduler._bg_loop ascii_builtins (replicate 60 midnight_pass)
         (Scheduler.start 998%float 998%float) fresh_store).1 = 1.
Proof.
  assert ("00:00" ∈ Scheduler.RESET_TIMES) as Hin by apply list_elem_of_here.
  split; [done|].
  destruct (@reset_fires_once_per_instant ascii_builtins "00:00" Hin)
    as (_ & Honce & _).
  apply (Honce midnight_pass (replicate 59 midnight_pass)).
  - cbn. set_solver.
  - apply Forall_cons. split; [done|]. by apply Forall_replicate.
Defined.


(** ** The log store *)

Section LogStoreFacts.
Import LogStore.

Lemma max_keep_pos : 0 < MAX_KEEP.
Proof. unfold MAX_KEEP. lia. Qed.

(** Both branches of the cut are a [drop]. *)
Lemma append_bounded_drop data entry :
  append_bounded data entry
    = drop (length (data ++ [entry]) - MAX_KEEP) (data ++ [entry]).
Proof.
  unfold append_bounded, last_n. case_bool_decide as Hlen; [done|].
  replace (length (data ++ [entry]) - MAX_KEEP) with 0 by lia. done.
Qed.

Lemma append_bounded_length data entry :
  length (append_bounded data entry) ≤ MAX_KEEP.
Proof. rewrite append_bounded_drop, length_drop. lia. Qed.

Lemma append_bounded_last data entry :
  last (append_bounded data entry) = Some entry.
Proof.
  rewrite append_bounded_drop, drop_app_le; [apply last_snoc|].
  rewrite length_app. cbn. pose proof max_keep_pos. lia.
Qed.

Lemma append_bounded_suffix data entry :
  data ++ [entry]
    = take (length (data ++ [entry]) - MAX_KEEP) (data ++ [entry])
      ++ append_bounded data entry.
Proof. by rewrite append_bounded_drop, take_drop. Qed.

Lemma target_put f s : target (put f s) = Some f.
Proof. unfold target, put. cbn. apply lookup_insert_eq. Qed.

Lemma put_put f f' s : put f (put f' s) = put f s.
Proof. unfold put. cbn. by rewrite insert_insert_eq. Qed.

(** On a target that can be written, [append] leaves the cut log. *)
Lemma append_writable entry s :
  writable s = true →
  append entry s
    = Some (put (Text (Some (VList (append_bounded (load (target s)) entry)))) s).
Proof.
  intros Hw. unfold append, open_w, dump. rewrite Hw. cbn.
  by rewrite put_put.
Qed.

(** Appending one sample after the other, on the log itself. *)
Lemma fold_append_bounded_drop entries : ∀ data,
  length data ≤ MAX_KEEP →
  foldl append_bounded data entries
    = drop (length (data ++ entries) - MAX_KEEP) (data ++ entries).
Proof.
  induction entries as [|e rest IH]; intros data Hlen.
  - rewrite app_nil_r.
    replace (length data - MAX_KEEP) with 0 by lia. done.
  - cbn [foldl]. rewrite IH by apply append_bounded_length.
    rewrite append_bounded_drop.
    rewrite <- drop_app_le by (rewrite length_app; cbn; lia).
    rewrite drop_drop, <- (assoc_L (++)). cbn.
    f_equal. rewrite length_drop, !length_app. cbn. lia.
Qed.

(** The same through the file: each append reads what the last wrote. *)
Lemma append_all_fold entries : ∀ s,
  writable s = true →
  ∃ s', append_all entries s = Some s'
        ∧ writable s' = true
        ∧ load (target s') = foldl append_bounded (load (target s)) entries.
Proof.
  induction entries as [|e rest IH]; intros s Hw; [by exists s|].
  cbn [append_all foldl]. rewrite (append_writable _ _ Hw).
  cbn -[target load put].
  set (s1 := put _ s).
  destruct (IH s1) as (s' & Hrun & Hw' & Hlog); [done|].
  exists s'. split; [done|]. split; [done|].
  rewrite Hlog. unfold s1. by rewrite target_put.
Qed.

(** C6: whatever the log file held before, the log after appending a
    sample has at most 2016 entries, ends with the sample, and misses
    entries only at the front; 2020 samples appended one after the other
    to an empty log leave the last 2016 of them, in the order they were
    appended. This is the log that reaches the file whenever the target
    can be opened for writing. *)
Theorem log_keeps_last_2016 :
  (∀ f entry,
     let data := append_bounded (load f) entry in
     length data ≤ 2016
     ∧ last data = Some entry
     ∧ ∃ evicted, load f ++ [entry] = evicted ++ data)
  ∧ (∀ entries,
       length entries = 2020 →
       foldl append_bounded [] entries = drop 4 entries
       ∧ length (drop 4 entries) = 2016)
  ∧ (∀ s,
       writable s = true →
       (∀ entry, ∃ s',
          append entry s = Some s'
          ∧ target s'
            = Some (Text (Some (VList (append_bounded (load (target s)) entry)))))
       ∧ (∀ entries,
            load (target s) = [] → length entries = 2020 →
            ∃ s', append_all entries s = Some s'
                  ∧ load (target s') = drop 4 entries)).
Proof.
  assert (∀ entries, length entries = 2020 →
            foldl append_bounded [] entries = drop 4 entries) as Hfold.
  { intros entries Hlen. rewrite fold_append_bounded_drop by (cbn; lia).
    cbn [app length]. rewrite Hlen.
    by replace (2020 - MAX_KEEP) with 4 by (unfold MAX_KEEP; lia). }
  split; [|split].
  - intros f entry data.
    split; [apply append_bounded_length|].
    split; [apply append_bounded_last|].
    eexists. apply append_bounded_suffix.
  - intros entries Hlen. split; [by apply Hfold|].
    rewrite length_drop. lia.
  - intros s Hw. split.
    + intros entry. eexists. split; [by apply append_writable|].
      by rewrite target_put.
    + intros entries Hempty Hlen.
      destruct (append_all_fold entries s Hw) as (s' & Hrun & _ & Hlog).
      exists s'. split; [done|]. rewrite Hlog, Hempty. by apply Hfold.
Qed.


(** C9 (as amended): [append] writes into the target itself. A reader
    first finds the target cut to length zero and then finds it holding
    the full sequence; no file at any other path is created or changed. *)
Theorem append_writes_in_place (s : store) (entry : value) :
  writable s = true →
  let data := append_bounded (load (target s)) entry in
  append_trace entry s
    = [put (Text None) s; put (Text (Some (VList data))) s]
  ∧ append entry s = last (append_trace entry s)
  ∧ ∀ s' p, s' ∈ append_trace entry s → p ≠ OBSTRUCTION_5MIN_PATH →
            files s' !! p = files s !! p.
Proof.
  intros Hw data.
  assert (append_trace entry s
          = [put (Text None) s; put (Text (Some (VList data))) s]) as Htr.
  { unfold append_trace, open_w, dump. rewrite Hw. by rewrite put_put. }
  split; [done|]. split.
  - rewrite Htr. cbn. by apply append_writable.
  - intros s' p. rewrite Htr. intros Hin Hp.
    apply list_elem_of_In in Hin. cbn in Hin.
    destruct Hin as [<- | [<- | []]]; cbn; by rewrite lookup_insert_ne.
Qed.
End LogStoreFacts.

(** C6 at 2020 samples appended to a storage without a log file. *)
Lemma log_keeps_last_2016_witness :
  length many_entries = 2020
  ∧ ∃ s', LogStore.append_all many_entries fresh_store = Some s'
          ∧ LogStore.load (LogStore.target s') = drop 4 many_entries.
Proof.
  assert (length many_entries = 2020) as Hlen.
  { unfold many_entries. by rewrite length_map, length_seq. }
  split; [done|].
  destruct log_keeps_last_2016 as (_ & _ & Hstore).
  by apply (Hstore fresh_store eq_refl).
Defined.


(** C9 (as stated) fails: while a sample is appended to a valid log of one
    entry, the first thing a reader can find is the target cut to length
    zero, which holds neither the old log nor the new one; no other file
    takes part. *)
Lemma append_exposes_empty_file :
  LogStore.load (LogStore.target one_entry_store) = [entry_a]
  ∧ LogStore.append_trace entry_b one_entry_store !! 0
    = Some (LogStore.Store
              {[ LogStore.OBSTRUCTION_5MIN_PATH := LogStore.Text None ]} true)
  ∧ LogStore.append_trace entry_b one_entry_store !! 1
    = Some (LogStore.Store
              {[ LogStore.OBSTRUCTION_5MIN_PATH :=
                   LogStore.Text (Some (VList [entry_a; entry_b])) ]} true).
Proof. by vm_compute. Qed.

(** C9 (as amended) at that log. *)
Lemma append_writes_in_place_witness :
  LogStore.append_trace entry_b one_entry_store
  = [LogStore.put (LogStore.Text None) one_entry_store;
     LogStore.put (LogStore.Text (Some (VList [entry_a; entry_b]))) one_entry_store].
Proof.
  by destruct (append_writes_in_place one_entry_store entry_b eq_refl) as [-> _].
Defined.

(** ** The HTTP dispatch *)

Section HttpFacts.
Context `{!Builtins}.
Import Http.

Lemma api_route_cases m p :
  (m, p) ∈ api_routes ↔
  (m = GET ∧ (p = "/api/health" ∨ p = "/api/status"))
  ∨ (m = POST ∧ (p = "/api/keepalive" ∨ p = "/api/reset")).
Proof.
  unfold api_routes. rewrite !elem_of_cons, elem_of_nil.
  split.
  - intros [[= -> ->] | [[= -> ->] | [[= -> ->] | [[= -> ->] | []]]]]; auto.
  - intros [[-> [-> | ->]] | [-> [-> | ->]]]; auto.
Qed.

Lemma page_route_cases m p :
  (m, p) ∈ page_routes ↔ m = GET ∧ (p = "/" ∨ p = "/index.html").
Proof.
  unfold page_routes. rewrite !elem_of_cons, elem_of_nil.
  split.
  - intros [[= -> ->] | [[= -> ->] | []]]; auto.
  - intros [-> [-> | ->]]; auto.
Qed.

(** C10: a request on a row of the API table is answered with status
    200 and a JSON body, also when the operation behind it failed; the
    404 answer goes exactly to the requests that are neither on a row of
    the table nor for the dashboard page. *)
Theorem api_routes_answer_200 (m : method) (p : string) (w : world) :
  ((m, p) ∈ api_routes →
   code (handle m p w) = 200%Z
   ∧ ctype (handle m p w) = json_ctype
   ∧ ∃ r, content (handle m p w) = JsonOf r)
  ∧ (code (handle m p w) = 404%Z ↔
     ((m, p) ∉ api_routes) ∧ ((m, p) ∉ page_routes))
  ∧ (∀ e, status_dish w = Facade.StatusRaises e →
          handle GET "/api/status" w = send_json (Facade.failure e)
          ∧ handle POST "/api/keepalive" w = send_json (Facade.failure e))
  ∧ (∀ e, reset_dish w = Facade.ResetRaises e →
          handle POST "/api/reset" w = send_json (Facade.failure e)).
Proof.
  split; [|split; [|split]].
  - rewrite api_route_cases.
    intros [[-> [-> | ->]] | [-> [-> | ->]]]; cbn; eauto.
  - rewrite api_route_cases, page_route_cases.
    destruct m; cbn; unfold do_GET, do_POST.
    + case_bool_decide as Hpage.
      * cbn. split; [done|]. intros [_ Hn]. destruct Hn.
        split; [done|]. revert Hpage. rewrite !elem_of_cons, elem_of_nil.
        tauto.
      * assert (p ≠ "/" ∧ p ≠ "/index.html") as [Hp1 Hp2].
        { revert Hpage. rewrite !elem_of_cons, elem_of_nil. tauto. }
        destruct (String.eqb_spec p "/api/health") as [->|Hh];
          [cbn; split; [done | intros [Hn _]; destruct Hn; auto] |].
        destruct (String.eqb_spec p "/api/status") as [->|Hs];
          [cbn; split; [done | intros [Hn _]; destruct Hn; auto] |].
        cbn. split; [|done]. intros _.
        split; intros Hr; [destruct Hr as [[_ [?|?]] | [? _]]
                          | destruct Hr as [_ [?|?]]]; done.
    + destruct (String.eqb_spec p "/api/reset") as [->|Hr];
        [cbn; split; [done | intros [Hn _]; destruct Hn; auto] |].
      destruct (String.eqb_spec p "/api/keepalive") as [->|Hk];
        [cbn; split; [done | intros [Hn _]; destruct Hn; auto] |].
      cbn. split; [|done]. intros _.
      split; intros Hx; [destruct Hx as [[? _] | [_ [?|?]]]
                        | destruct Hx as [? _]]; done.
  - intros e He. unfold handle, do_GET, do_POST, Facade.do_keepalive.
    cbn. by rewrite He.
  - intros e He. unfold handle, do_POST. cbn. by rewrite He.
Qed.
End HttpFacts.

(** ** More on the lookup helper and the resolution *)

(** X1: looking up a key-path in two legs is looking up the whole path;
    so once a leg ends on something that is not a dict, every longer path
    is absent. *)
Theorem g_from_app (v : value) (p q : list string) :
  g_from v (p ++ q) = g_from (g_from v p) q
  ∧ ((∀ d, g_from v p ≠ VDict d) → q ≠ [] → g_from v (p ++ q) = VNone).
Proof.
  assert (∀ q, g_from VNone q = VNone) as Hnone by (by intros [|]).
  assert (∀ v p q, g_from v (p ++ q) = g_from (g_from v p) q) as Happ.
  { clear v p q. intros v p. revert v.
    induction p as [|k p IH]; intros v q; [done|].
    cbn. destruct v; try (by rewrite Hnone).
    destruct (d !! k); [apply IH | by rewrite Hnone]. }
  split; [apply Happ|].
  intros Hleaf Hq. rewrite Happ.
  destruct q as [|k q]; [done|].
  cbn. destruct (g_from v p) eqn:Hv; try done. by destruct (Hleaf d).
Qed.

Lemma first_truthy_plain (alts : list value) :
  Forall plain alts → first_truthy alts = first_present alts.
Proof.
  induction 1 as [|v alts Hv _ IH]; [done|].
  destruct alts as [|w alts].
  - cbn. by destruct v.
  - change (first_truthy (v :: w :: alts))
      with (if truthy v then v else first_truthy (w :: alts)).
    cbn [first_present]. destruct Hv as [-> | Hv]; [exact IH|].
    rewrite Hv. by destruct v.
Qed.

Section MoreResolution.
Context `{!Builtins}.

(** X2: when every alternative of a field is either absent or truthy, the
    field is the value at its first key-path that is present. Stated for
    the two fields with three key-paths, in the summary and the classifier,
    and for the boresight error with its four. *)
Theorem resolution_first_present_when_plain (raw : dict) :
  (Forall plain (at_paths raw Paths.dish_state) →
   Facade.dish_state (Facade.summarize raw)
     = first_present (at_paths raw Paths.dish_state)
   ∧ Classifier.dish_state (Classifier.check_alignment raw)
     = first_present (at_paths raw Paths.dish_state))
  ∧ (Forall plain (at_paths raw Paths.obstruction_fraction) →
     Facade.obstruction_fraction (Facade.summarize raw)
       = first_present (at_paths raw Paths.obstruction_fraction)
     ∧ Classifier.obstruction_fraction (Classifier.check_alignment raw)
       = Classifier.float_val
           (first_present (at_paths raw Paths.obstruction_fraction)))
  ∧ (Forall plain (at_paths raw Paths.boresight_error_deg) →
     Classifier.boresight_error_deg (Classifier.check_alignment raw)
       = Classifier.float_val
           (first_present (at_paths raw Paths.boresight_error_deg))).
Proof.
  split; [|split]; intros Hplain; rewrite <- (first_truthy_plain _ Hplain);
    unfold at_paths; cbn [map Paths.dish_state Paths.obstruction_fraction
                            Paths.boresight_error_deg];
    rewrite <- ?get_is_g, <- ?or3_first_truthy, <- ?or4_first_truthy; done.
Qed.
End MoreResolution.

(** X2 at a payload of the newest naming. *)
Lemma resolution_first_present_when_plain_witness :
  Facade.dish_state (Facade.summarize healthy) = VStr "CONNECTED"
  ∧ Classifier.obstruction_fraction
      (@Classifier.check_alignment ascii_builtins healthy) = Some 0.01%float.
Proof.
  destruct (@resolution_first_present_when_plain ascii_builtins healthy)
    as (Hstate & Hobs & _).
  split.
  - destruct Hstate as [-> _]; [|by vm_compute].
    unfold at_paths. cbn. repeat constructor; by vm_compute.
  - destruct Hobs as [_ ->]; [|by vm_compute].
    unfold at_paths. cbn. repeat constructor; by vm_compute.
Defined.

(** ** More on the classifier *)

Section MoreClassifier.
Context `{!Builtins}.
Import Classifier.

Lemma empty_not_ok : bool_decide ("" ∈ ok_states) = false.
Proof. by vm_compute. Qed.

(** The verdict that is returned is the local one. *)
Lemma verdict_is_local raw :
  verdict (check_alignment raw) = l_verdict (after 4 raw).
Proof.
  unfold check_alignment. cbn [verdict].
  destruct (l_verdict (after 4 raw)); reflexivity.
Qed.

(** The locals after the four rules, read off the payload. *)
Lemma after_4_shape raw :
  let s := dish_state_str (resolve_dish_state raw) in
  after 4 raw =
    Locals
      (if later_rule_fails raw then NOT_OK
       else if bool_decide (s ∈ ok_states) then ALIGNED
       else if String.eqb s "" then UNKNOWN else NOT_OK)
      ((if fails_state raw then [state_reason raw] else [])
       ++ (if fails_boresight raw then [boresight_reason raw] else [])
       ++ (if fails_obstructed raw then ["currently_obstructed=true"] else [])
       ++ (if fails_obstruction raw then [obstruction_reason raw] else [])).
Proof.
  cbv zeta. unfold later_rule_fails, fails_state, fails_boresight,
    fails_obstructed, fails_obstruction, state_reason, boresight_reason,
    obstruction_reason.
  rewrite after_4, after_3, after_2, after_1.
  unfold rule_state, rule_boresight, rule_obstructed, rule_obstruction, init.
  set (s := dish_state_str (resolve_dish_state raw)).
  set (b := float_val (resolve_boresight raw)).
  set (c := resolve_currently_obstructed raw).
  set (o := float_val (resolve_obstruction_fraction raw)).
  assert (bool_decide (s ∈ bad_states) || negb (String.eqb s "")
          = negb (String.eqb s "")) as ->.
  { destruct (String.eqb_spec s "") as [->|]; [|apply orb_true_r].
    by rewrite empty_not_bad. }
  destruct (bool_decide (s ∈ ok_states)); [| destruct (String.eqb s "")];
    (destruct b as [bv|]; [destruct (2.5 <? bv)%float|]);
    (destruct o as [ov|];
       [destruct (0.10 <? ov)%float, (0.02 <? ov)%float |]);
    by destruct c as [|[]| | | | |].
Qed.

(** X3: the verdict as a table. It is [ALIGNED] exactly when the dish
    state is ONLINE or CONNECTED and none of the rules 2 to 4 fails;
    [UNKNOWN] exactly when there is no dish state and none of them fails,
    and then the only reason is "state=unknown"; and [NOT_OK] in every
    other case. *)
Theorem verdict_table (raw : dict) :
  let r := check_alignment raw in
  let s := dish_state_str (resolve_dish_state raw) in
  (verdict r = ALIGNED ↔ s ∈ ok_states ∧ later_rule_fails raw = false)
  ∧ (verdict r = UNKNOWN ↔ s = "" ∧ later_rule_fails raw = false)
  ∧ (verdict r = NOT_OK ↔
     ((s ∉ ok_states) ∧ s ≠ "") ∨ later_rule_fails raw = true)
  ∧ (verdict r = UNKNOWN → reasons r = ["state=unknown"]).
Proof.
  intros r s.
  assert (reasons r = l_reasons (after 4 raw)) as Hr by done.
  unfold r in *. rewrite verdict_is_local, Hr. clear Hr.
  pose proof (after_4_shape raw) as Hshape. cbv zeta in Hshape.
  fold s in Hshape. rewrite Hshape. cbn [l_verdict l_reasons].
  unfold later_rule_fails in *. unfold fails_state, state_reason. fold s.
  destruct (String.eqb_spec s "") as [Hs|Hs].
  - rewrite Hs, empty_not_ok. cbn [negb].
    assert ("" ∉ ok_states) as Hno by (apply (bool_decide_eq_false _), empty_not_ok).
    destruct (fails_boresight raw), (fails_obstructed raw),
      (fails_obstruction raw); cbn; intuition congruence.
  - case_bool_decide as Hok; cbn [negb];
      destruct (fails_boresight raw), (fails_obstructed raw),
        (fails_obstruction raw); cbn; intuition congruence.
Qed.

(** X4: an aligned result has no reasons and explains itself as "OK";
    any other result has at least one reason, and its explanation is the
    reasons joined with "; ", never the fallback text. *)
Theorem explain_follows_reasons (raw : dict) :
  let r := check_alignment raw in
  (aligned r = true → reasons r = [] ∧ explain r = "OK")
  ∧ (aligned r = false →
     reasons r ≠ [] ∧ explain r = join "; " (reasons r)).
Proof.
  intros r. unfold r, check_alignment. cbn [aligned reasons explain].
  pose proof (after_4_shape raw) as Hshape. cbv zeta in Hshape.
  rewrite Hshape. cbn [l_verdict l_reasons].
  unfold later_rule_fails, fails_state.
  set (s := dish_state_str (resolve_dish_state raw)).
  destruct (fails_boresight raw), (fails_obstructed raw),
    (fails_obstruction raw), (bool_decide (s ∈ ok_states));
    try destruct (String.eqb s ""); cbn; split; by intros.
Qed.

(** X5: a payload with none of the keys that the summary and the
    classifier read gives a summary with every field absent and the verdict
    [UNKNOWN] with the one reason "state=unknown". *)
Theorem unrecognised_payload_is_unknown (raw : dict) :
  (∀ k, k ∈ recognised_keys → raw !! k = None) →
  Facade.summarize raw = empty_summary
  ∧ check_alignment raw = unknown_alignment.
Proof.
  intros Hkeys.
  assert (∀ k, bool_decide (k ∈ recognised_keys) = true → get raw k = VNone)
    as Hget.
  { intros k Hk%bool_decide_eq_true. unfold get. by rewrite (Hkeys k Hk). }
  assert (∀ k k', bool_decide (k ∈ recognised_keys) = true →
                  g raw [k; k'] = VNone) as Hg.
  { intros k k' Hk%bool_decide_eq_true. unfold g. cbn.
    by rewrite (Hkeys k Hk). }
  split.
  - unfold Facade.summarize, empty_summary.
    by rewrite !Hget, !Hg by (by vm_compute).
  - assert (resolve_dish_state raw = VNone) as Hstate.
    { unfold resolve_dish_state. by rewrite !Hget, !Hg by (by vm_compute). }
    assert (resolve_boresight raw = VNone) as Hbore.
    { unfold resolve_boresight. by rewrite !Hget, !Hg by (by vm_compute). }
    assert (resolve_currently_obstructed raw = VNone) as Hcur.
    { unfold resolve_currently_obstructed.
      by rewrite !Hget, !Hg by (by vm_compute). }
    assert (resolve_obstruction_fraction raw = VNone) as Hobs.
    { unfold resolve_obstruction_fraction.
      by rewrite !Hget, !Hg by (by vm_compute). }
    unfold check_alignment, unknown_alignment.
    rewrite after_4, after_3, after_2, after_1.
    by rewrite Hstate, Hbore, Hcur, Hobs.
Qed.

(** X6: a status object that is neither a decodable message nor a dict
    still gives [ok: true]: the payload holds only its [repr], every field
    of the summary is absent and the verdict is [UNKNOWN]. *)
Theorem opaque_status_is_unknown (protobuf : bool) (obj : Client.pyobj) (now : Z) :
  (protobuf && Client.descriptor obj = false
   ∨ Client.message_to_dict obj = None) →
  Client.as_dict obj = None →
  Facade.do_status
    (Facade.StatusReturns (Client._pb_to_dict protobuf obj)) now
  = {| Facade.ok := true; Facade.ts := Some now;
       Facade.summary := Some empty_summary;
       Facade.alignment := Some unknown_alignment;
       Facade.raw := Some {[ "_repr" := VStr (Client.obj_repr obj) ]};
       Facade.error := None |}.
Proof.
  intros Hmsg Hdict.
  assert (Client._pb_to_dict protobuf obj
          = {[ "_repr" := VStr (Client.obj_repr obj) ]}) as ->.
  { unfold Client._pb_to_dict. rewrite Hdict.
    destruct Hmsg as [-> | ->]; [done|].
    by destruct (protobuf && Client.descriptor obj). }
  destruct (unrecognised_payload_is_unknown
              {[ "_repr" := VStr (Client.obj_repr obj) ]}) as [Hsm Hal].
  { intros k Hk. apply lookup_singleton_ne. intros <-.
    revert Hk. apply (bool_decide_eq_false _). by vm_compute. }
  unfold Facade.do_status. by rewrite Hsm, Hal.
Qed.
End MoreClassifier.

(** X5 at the empty payload. *)
Lemma unrecognised_payload_is_unknown_witness :
  Facade.summarize ∅ = empty_summary
  ∧ @Classifier.check_alignment ascii_builtins ∅ = unknown_alignment.
Proof.
  apply (@unrecognised_payload_is_unknown ascii_builtins ∅).
  intros k _. apply lookup_empty.
Defined.

(** X6 at an object that is neither a message nor a dict. *)
Lemma opaque_status_is_unknown_witness :
  Facade.alignment
    (@Facade.do_status ascii_builtins
       (Facade.StatusReturns (Client._pb_to_dict true opaque_object)) 1700000000)
  = Some unknown_alignment.
Proof.
  by rewrite (@opaque_status_is_unknown ascii_builtins true opaque_object
                1700000000 (or_introl eq_refl) eq_refl).
Defined.

(** ** The operations and the dish client *)

Section ClientFacts.
Context `{!Builtins}.
Import Client.

(** X7: each of the three operations answers in one of two shapes: a
    success with a timestamp and no error, or a failure with an error and
    no other key. A keep-alive succeeds exactly when its status fetch does
    and never passes the summary, the verdict or the payload on. *)
Theorem responses_are_well_formed :
  (∀ dish now, well_formed (Facade.do_status dish now))
  ∧ (∀ dish now, well_formed (Facade.do_reset_obstruction_map dish now))
  ∧ (∀ r now,
       let k := Facade.keepalive_reply r now in
       well_formed k
       ∧ Facade.ok k = Facade.ok r
       ∧ Facade.summary k = None ∧ Facade.alignment k = None
       ∧ Facade.raw k = None).
Proof.
  split; [|split].
  - intros [e| |e|raw] now; cbn; eauto.
  - intros [e| |e|] now; cbn; eauto.
  - intros r now. unfold Facade.keepalive_reply.
    destruct (Facade.ok r); cbn; eauto 10.
Qed.

(** X8: the global context is set at most once. A call that finds it set
    returns it whatever the module offers; what [_get_context] leaves in
    the global is what it returned; and neither a status fetch nor a reset
    changes a context that is set. *)
Theorem context_is_created_once :
  (∀ m g r g',
     _get_context m g = (r, g') →
     (∀ c, g = Some c → r = Fine (Some c) ∧ g' = Some c)
     ∧ (∀ c, g' = Some c → r = Fine (Some c))
     ∧ (g' = None → r = Fine None ∨ ∃ e, r = Exception e))
  ∧ (∀ imported protobuf c,
       (fetch_status imported protobuf (Some c)).2 = Some c)
  ∧ (∀ imported c, (perform_reset imported (Some c)).2 = Some c).
Proof.
  split; [|split].
  - intros m g r g'. unfold _get_context.
    destruct g as [c0|].
    { intros [= <- <-]. naive_solver. }
    destruct (channel_context m) as [ctx_cls|].
    + destruct (ctx_cls DISH_TARGET) as [c|e|e]; intros [= <- <-];
        naive_solver.
    + intros [= <- <-]. naive_solver.
  - intros [m|e] protobuf c; [|done]. unfold fetch_status, _get_context.
    destruct (status_fn m) as [fn|]; [|done].
    by destruct (call_fn fn (Some c)).
  - intros [m|e] c; [|done]. unfold perform_reset, _get_context.
    destruct (reset_obstruction_map m) as [fn|]; [|done].
    by destruct (call_fn fn (Some c)).
Qed.

(** X9: a status fetch uses [get_status] whenever it is callable, and
    [dish_get_status] only when it is not; it never looks at the reset
    function. *)
Theorem get_status_is_preferred (m m' : module) (protobuf : bool)
    (g : option context) :
  channel_context m = channel_context m' →
  get_status m = get_status m' →
  (get_status m = None → dish_get_status m = dish_get_status m') →
  fetch_status (Fine m) protobuf g = fetch_status (Fine m') protobuf g.
Proof.
  intros Hctx Hget Hdish.
  assert (status_fn m = status_fn m') as Hfn.
  { unfold status_fn. rewrite <- Hget.
    destruct (get_status m); [done | by apply Hdish]. }
  unfold fetch_status, _get_context. by rewrite Hctx, Hfn.
Qed.

(** X10: with a client whose function does not take a context (calling it
    with one raises [TypeError]), the function is called without one: a
    status fetch gives what the call without a context gives, whether a
    context exists or not. *)
Theorem context_argument_is_optional (m : module) (fn : callable pyobj)
    (protobuf : bool) (g g' : option context) (ctx : option context) :
  status_fn m = Some fn →
  (∀ c, ∃ e, with_ctx fn c = RaisesTypeError e) →
  _get_context m g = (Fine ctx, g') →
  fetch_status (Fine m) protobuf g = (status_without_ctx protobuf fn, g').
Proof.
  intros Hfn Hreject Hctx. unfold fetch_status. rewrite Hctx, Hfn.
  assert (call_fn fn ctx = outcome_of (without_ctx fn)) as ->.
  { destruct ctx as [c|]; [|done]. cbn. by destruct (Hreject c) as [e ->]. }
  unfold status_without_ctx. by destruct (without_ctx fn).
Qed.
End ClientFacts.

(** X9 at two clients that differ in a [dish_get_status] that is not
    used and in the reset function. *)
Lemma get_status_is_preferred_witness :
  Client.fetch_status (Client.Fine current_module) true None
  = Client.fetch_status
      (Client.Fine
         {| Client.channel_context := Client.channel_context current_module;
            Client.get_status := Client.get_status current_module;
            Client.dish_get_status := Client.dish_get_status legacy_module;
            Client.reset_obstruction_map := None |})
      true None.
Proof. by apply get_status_is_preferred. Defined.

(** X10 at a client of an older version, after a context was made by a
    newer one. *)
Lemma context_argument_is_optional_witness :
  Client.fetch_status (Client.Fine legacy_module) true
    (Some (Client.ChannelContext Client.DISH_TARGET))
  = (Facade.StatusReturns healthy,
     Some (Client.ChannelContext Client.DISH_TARGET)).
Proof.
  apply (context_argument_is_optional legacy_module
           {| Client.with_ctx :=
                λ _, Client.RaisesTypeError "takes 0 positional arguments";
              Client.without_ctx := Client.Returns (dict_object healthy) |}
           true
           (Some (Client.ChannelContext Client.DISH_TARGET))
           (Some (Client.ChannelContext Client.DISH_TARGET))
           (Some (Client.ChannelContext Client.DISH_TARGET)));
    [done | by eexists | done].
Defined.

(** ** More on the log store and the logger *)

Section MoreLogStore.
Context `{!Builtins}.
Import LogStore.

(** X11: a log below the bound only grows: nothing is evicted. A log at
    the bound loses exactly its oldest entry, and a log at or above the
    bound comes out with exactly [MAX_KEEP] entries. *)
Theorem eviction_starts_at_the_bound (data : list value) (entry : value) :
  (length data < MAX_KEEP → append_bounded data entry = data ++ [entry])
  ∧ (length data = MAX_KEEP →
     append_bounded data entry = drop 1 data ++ [entry])
  ∧ (MAX_KEEP ≤ length data →
     length (append_bounded data entry) = MAX_KEEP).
Proof.
  rewrite append_bounded_drop, length_drop, length_app. cbn [length].
  pose proof max_keep_pos as Hpos.
  split; [|split].
  - intros Hlt. by replace (length data + 1 - MAX_KEEP) with 0 by lia.
  - intros Heq. replace (length data + 1 - MAX_KEEP) with 1 by lia.
    apply drop_app_le. lia.
  - lia.
Qed.

(** What the logger does, read off the status call. *)
Lemma logger_cases dish t timestamp s :
  log_obstruction_fraction_5min (Facade.do_status dish t) timestamp s =
    match dish with
    | Facade.StatusReturns raw =>
        match Classifier.obstruction_fraction (Classifier.check_alignment raw) with
        | Some f => append (make_entry timestamp f) s
        | None => Some s
        end
    | _ => Some s
    end.
Proof.
  destruct dish as [e| |e|raw]; try done.
  unfold log_obstruction_fraction_5min, pick_obs.
  cbn [Facade.do_status Facade.ok Facade.summary Facade.alignment negb
       Facade.obstruction_fraction Facade.summarize
       Classifier.obstruction_fraction Classifier.check_alignment].
  fold (Classifier.resolve_obstruction_fraction raw).
  unfold Classifier.float_val.
  destruct (is_none (Classifier.resolve_obstruction_fraction raw)) eqn:Hn;
    [done | by rewrite Hn].
Qed.

(** X12: the logger records a sample exactly when the status fetch
    succeeded and the classifier reports an obstruction fraction, and then
    with that value; the classifier's copy never supplies a value the
    summary lacks. In every other case the storage is left as it is and
    nothing is raised, writable or not. *)
Theorem logger_records_classifier_value
    (dish : Facade.status_call) (t : Z) (timestamp : string) (s : store) :
  (Facade.ok (Facade.do_status dish t) = false →
   log_obstruction_fraction_5min (Facade.do_status dish t) timestamp s = Some s)
  ∧ (∀ raw,
       dish = Facade.StatusReturns raw →
       Classifier.obstruction_fraction (Classifier.check_alignment raw) = None →
       log_obstruction_fraction_5min (Facade.do_status dish t) timestamp s
         = Some s)
  ∧ (∀ raw f,
       dish = Facade.StatusReturns raw →
       Classifier.obstruction_fraction (Classifier.check_alignment raw) = Some f →
       pick_obs (Facade.do_status dish t)
         = Classifier.resolve_obstruction_fraction raw
       ∧ log_obstruction_fraction_5min (Facade.do_status dish t) timestamp s
         = append (make_entry timestamp f) s).
Proof.
  rewrite logger_cases. split; [|split].
  - by destruct dish.
  - by intros raw -> ->.
  - intros raw f -> Hf. rewrite Hf. split; [|done].
    unfold pick_obs.
    cbn [Facade.do_status Facade.summary Facade.alignment
         Facade.obstruction_fraction Facade.summarize].
    fold (Classifier.resolve_obstruction_fraction raw).
    destruct (is_none (Classifier.resolve_obstruction_fraction raw)) eqn:Hn;
      [|done].
    revert Hf. cbn [Classifier.obstruction_fraction Classifier.check_alignment].
    unfold Classifier.float_val. by rewrite Hn.
Qed.
End MoreLogStore.

(** ** More on the scheduler *)

Section MoreScheduler.
Context `{!Builtins}.
Import Scheduler.

Lemma keepalives_app a b : keepalives (a ++ b) = keepalives a + keepalives b.
Proof. unfold keepalives. by rewrite List.filter_app, length_app. Qed.

(** The parts of a pass, one after the other. *)
Lemma tick_steps w st fs :
  tick w st fs =
    ((ka_step w st).1 ++ (reset_step w (ka_step w st).2).1
       ++ (obs_step w (clear_step w (reset_step w (ka_step w st).2).2) fs).1,
     (obs_step w (clear_step w (reset_step w (ka_step w st).2).2) fs).2).
Proof.
  unfold tick. destruct (ka_step w st) as [e1 st1]. cbn [fst snd].
  destruct (reset_step w st1) as [e2 st2]. cbn [fst snd].
  by destruct (obs_step w (clear_step w st2) fs).
Qed.

Lemma steps_keep_next_obs w st :
  next_obs_5min (clear_step w (reset_step w (ka_step w st).2).2)
  = next_obs_5min st.
Proof.
  unfold clear_step, reset_step, ka_step.
  destruct (next_ka st <=? now w)%float; cbn [snd next_obs_5min last_reset_times];
    destruct (_ && _); cbn [snd]; by destruct (String.eqb _ _).
Qed.

(** X13: when the log is due, the status fetch for it succeeded with an
    obstruction fraction and the log file cannot be opened for writing, the
    error of the write ends the pass, and with it the loop: no later pass
    is made. *)
Theorem unwritable_log_ends_the_loop (w : world) (ws : list world)
    (st : sched) (fs : LogStore.store) (raw : dict) (f : float) :
  (next_obs_5min st <=? now w)%float = true →
  LogStore.writable fs = false →
  obs_dish w = Facade.StatusReturns raw →
  Classifier.obstruction_fraction (Classifier.check_alignment raw) = Some f →
  (tick w st fs).2 = None
  ∧ _bg_loop (w :: ws) st fs = ((tick w st fs).1, None).
Proof.
  intros Hdue Hro Hdish Hf.
  assert ((tick w st fs).2 = None) as Hnone.
  { rewrite tick_steps. cbn [snd]. unfold obs_step.
    rewrite steps_keep_next_obs, Hdue, Hdish, logger_cases, Hf.
    unfold LogStore.append, LogStore.open_w. by rewrite Hro. }
  split; [done|]. rewrite run_cons.
  by destruct (tick w st fs) as [evs [[st1 fs1]|]].
Qed.

(** X15: a pass in which the log is due and which completes moves the
    log deadline to [now + 300], whether a sample was recorded or not; a
    pass in which it is not due leaves the deadline alone. *)
Theorem log_deadline_advances (w : world) (st st' : sched)
    (fs fs' : LogStore.store) (evs : list event) :
  tick w st fs = (evs, Some (st', fs')) →
  next_obs_5min st' =
    if (next_obs_5min st <=? now w)%float
    then (now w + OBSTRUCTION_5MIN_SEC)%float
    else next_obs_5min st.
Proof.
  rewrite tick_steps. intros [= _ Hobs]. revert Hobs.
  unfold obs_step. rewrite steps_keep_next_obs.
  destruct (next_obs_5min st <=? now w)%float.
  - destruct (LogStore.log_obstruction_fraction_5min _ _ _); [|done].
    by intros [= <- _].
  - intros [= <- _]. apply steps_keep_next_obs.
Qed.

(** X16: no burst of keep-alives: after a pass at clock [now] in which
    the keep-alive was due, a pass at a clock below [now + 120] does not
    call it. *)
Theorem keepalive_waits_the_interval (w1 w2 : world) (st st1 : sched)
    (fs fs1 : LogStore.store) (evs1 : list event) :
  (next_ka st <=? now w1)%float = true →
  tick w1 st fs = (evs1, Some (st1, fs1)) →
  (now w2 <? now w1 + AUTO_KEEPALIVE_SEC)%float = true →
  keepalives (tick w2 st1 fs1).1 = 0.
Proof.
  intros Hdue Htick Hsoon.
  assert (next_ka st1 = (now w1 + AUTO_KEEPALIVE_SEC)%float) as Hnext.
  { rewrite (tick_next_ka _ _ _ _ _ _ Htick). unfold ka_step. by rewrite Hdue. }
  assert ((next_ka st1 <=? now w2)%float = false) as Hnot.
  { rewrite Hnext.
    destruct (now w1 + AUTO_KEEPALIVE_SEC <=? now w2)%float eqn:Hle; [|done].
    apply leb_not_ltb in Hle. congruence. }
  assert (∀ w st, keepalives (reset_step w st).1 = 0) as Hreset.
  { intros w st'. unfold reset_step. by destruct (_ && _). }
  assert (∀ w st fs, keepalives (obs_step w st fs).1 = 0) as Hobs.
  { intros w st' fs'. unfold obs_step.
    destruct (next_obs_5min st' <=? now w)%float; [|reflexivity].
    destruct (LogStore.log_obstruction_fraction_5min _ _ _); reflexivity. }
  rewrite tick_steps. cbn [fst]. rewrite !keepalives_app, Hreset, Hobs.
  unfold ka_step. by rewrite Hnot.
Qed.

(** X17: a pass in which nothing is due (no deadline reached, the minute
    neither a reset time that has not run yet nor "00:01") makes no call
    and leaves the locals and the storage as they are. *)
Theorem idle_pass_changes_nothing (w : world) (st : sched) (fs : LogStore.store) :
  (next_ka st <=? now w)%float = false →
  (next_obs_5min st <=? now w)%float = false →
  (now_hm w ∉ RESET_TIMES) ∨ now_hm w ∈ last_reset_times st →
  now_hm w ≠ "00:01" →
  tick w st fs = ([], Some (st, fs)).
Proof.
  intros Hka Hobs Hreset Hclear%String.eqb_neq.
  rewrite tick_steps. unfold ka_step. rewrite Hka. cbn [fst snd].
  unfold reset_step.
  assert (bool_decide (now_hm w ∈ RESET_TIMES)
          && negb (bool_decide (now_hm w ∈ last_reset_times st)) = false) as ->.
  { destruct Hreset as [Hno | Hin].
    - by rewrite (bool_decide_eq_false_2 _ Hno).
    - rewrite (bool_decide_eq_true_2 _ Hin). apply andb_false_r. }
  cbn [fst snd]. unfold clear_step. rewrite Hclear.
  unfold obs_step. by rewrite Hobs.
Qed.

(** X18: the reset is never called for a minute outside [RESET_TIMES],
    however long the loop runs. *)
Theorem no_reset_outside_reset_times (hm : string) (ws : list world)
    (st : sched) (fs : LogStore.store) :
  hm ∉ RESET_TIMES →
  resets hm (_bg_loop ws st fs).1 = 0.
Proof.
  intros Hhm. revert st fs. induction ws as [|w ws IH]; intros st fs; [done|].
  rewrite run_cons.
  pose proof (tick_resets hm w st fs) as Ht.
  assert (resets hm (tick w st fs).1 = 0) as Hzero.
  { rewrite Ht. destruct (String.eqb_spec hm (now_hm w)) as [<-|]; [|done].
    by rewrite (bool_decide_eq_false_2 _ Hhm). }
  destruct (tick w st fs) as [evs [[st1 fs1]|]]; cbn [fst] in *; [|done].
  by rewrite resets_app, Hzero, IH.
Qed.
End MoreScheduler.

(** X13 at a storage that cannot be written: the pass that logs a sample
    is the last one. *)
Lemma unwritable_log_ends_the_loop_witness :
  (@Scheduler._bg_loop ascii_builtins [afternoon_pass; minute_later_pass]
     all_due read_only_store).2 = None.
Proof.
  destruct (@unwritable_log_ends_the_loop ascii_builtins afternoon_pass
              [minute_later_pass] all_due read_only_store healthy 0.01%float)
    as [_ ->]; [by vm_compute | done | done | by vm_compute | done].
Defined.

(** X15 at the afternoon pass. *)
Lemma log_deadline_advances_witness :
  ∃ evs st' fs',
    @Scheduler.tick ascii_builtins afternoon_pass all_due fresh_store
      = (evs, Some (st', fs'))
    ∧ Scheduler.next_obs_5min st' = 5300%float.
Proof.
  destruct (@Scheduler.tick ascii_builtins afternoon_pass all_due fresh_store)
    as [evs [[st' fs']|]] eqn:Htick; [|by vm_compute in Htick].
  exists evs, st', fs'. split; [done|].
  rewrite (log_deadline_advances _ _ _ _ _ _ Htick). by vm_compute.
Defined.

(** X16 at the afternoon pass and the pass a minute later. *)
Lemma keepalive_waits_the_interval_witness :
  ∃ evs1 st1 fs1,
    @Scheduler.tick ascii_builtins afternoon_pass all_due fresh_store
      = (evs1, Some (st1, fs1))
    ∧ keepalives (@Scheduler.tick ascii_builtins minute_later_pass st1 fs1).1 = 0.
Proof.
  destruct (@Scheduler.tick ascii_builtins afternoon_pass all_due fresh_store)
    as [evs1 [[st1 fs1]|]] eqn:Htick; [|by vm_compute in Htick].
  exists evs1, st1, fs1. split; [done|].
  apply (keepalive_waits_the_interval afternoon_pass minute_later_pass
           all_due st1 fresh_store fs1 evs1); [by vm_compute | done | by vm_compute].
Defined.

(** X17 at a pass before any deadline. *)
Lemma idle_pass_changes_nothing_witness :
  @Scheduler.tick ascii_builtins afternoon_pass none_due fresh_store
  = ([], Some (none_due, fresh_store)).
Proof.
  apply (@idle_pass_changes_nothing ascii_builtins);
    [by vm_compute | by vm_compute | | done].
  left. apply (bool_decide_eq_false _). by vm_compute.
Defined.

(** X18 at sixty passes at the top of an hour that is not a reset time. *)
Lemma no_reset_outside_reset_times_witness :
  Scheduler.resets "15:30"
    (@Scheduler._bg_loop ascii_builtins (replicate 60 afternoon_pass)
       all_due fresh_store).1 = 0.
Proof.
  apply (@no_reset_outside_reset_times ascii_builtins).
  apply (bool_decide_eq_false _). by vm_compute.
Defined.

(** ** More on the scheduler: two resets a day *)

Section TwoResets.
Context `{!Builtins}.
Import Scheduler.

Lemma all_resets_app a b : all_resets (a ++ b) = all_resets a + all_resets b.
Proof. unfold all_resets. by rewrite List.filter_app, length_app. Qed.

(** Resets at minutes of [RESET_TIMES] are resets at "00:00" or "12:00". *)
Lemma all_resets_split evs :
  Forall reset_at_reset_time evs →
  all_resets evs = resets "00:00" evs + resets "12:00" evs.
Proof.
  induction 1 as [|e evs He _ IH]; [done|].
  change (e :: evs) with ([e] ++ evs).
  rewrite all_resets_app, !resets_app, IH.
  destruct e as [r|hm r|]; [done| |done].
  cbn in He. unfold RESET_TIMES in He.
  apply elem_of_cons in He as [-> | He]; [done|].
  apply elem_of_cons in He as [-> | He]; [done|].
  by apply elem_of_nil in He.
Qed.

Lemma tick_events_ok w st fs : Forall reset_at_reset_time (tick w st fs).1.
Proof.
  rewrite tick_steps. cbn [fst]. rewrite !Forall_app. split; [|split].
  - unfold ka_step. destruct (next_ka st <=? now w)%float; cbn [fst];
      [by apply Forall_singleton | apply Forall_nil_2].
  - unfold reset_step.
    destruct (bool_decide (now_hm w ∈ RESET_TIMES)) eqn:Hin;
      [|apply Forall_nil_2].
    apply bool_decide_eq_true in Hin.
    destruct (negb _); cbn [andb fst];
      [by apply Forall_singleton | apply Forall_nil_2].
  - unfold obs_step. destruct (_ <=? now w)%float; [|apply Forall_nil_2].
    destruct (LogStore.log_obstruction_fraction_5min _ _ _); cbn [fst];
      [by apply Forall_singleton | apply Forall_nil_2].
Qed.

Lemma loop_events_ok ws : ∀ st fs,
  Forall reset_at_reset_time (_bg_loop ws st fs).1.
Proof.
  induction ws as [|w ws IH]; intros st fs; [apply Forall_nil_2|].
  rewrite run_cons. pose proof (tick_events_ok w st fs) as Ht.
  destruct (tick w st fs) as [evs [[st1 fs1]|]]; cbn [fst] in *; [|done].
  apply Forall_app. split; [done | apply IH].
Qed.

(** X19: between two clearings of the set the loop calls the reset at
    most twice in all, however many passes it makes. *)
Theorem at_most_two_resets_a_day (ws : list world) (st : sched)
    (fs : LogStore.store) :
  Forall (λ w, now_hm w ≠ "00:01") ws →
  all_resets (_bg_loop ws st fs).1 ≤ 2.
Proof.
  intros Hws. rewrite (all_resets_split _ (loop_events_ok ws st fs)).
  pose proof (run_resets_bound "00:00" ws st fs Hws) as H0.
  pose proof (run_resets_bound "12:00" ws st fs Hws) as H12.
  destruct (bool_decide ("00:00" ∈ last_reset_times st)),
    (bool_decide ("12:00" ∈ last_reset_times st)); lia.
Qed.
End TwoResets.

(** X19 at a day with sixty passes at midnight and sixty at noon. *)
Lemma at_most_two_resets_a_day_witness :
  all_resets
    (@Scheduler._bg_loop ascii_builtins
       (replicate 60 midnight_pass ++ replicate 60 noon_pass)
       none_due fresh_store).1 ≤ 2.
Proof.
  apply (@at_most_two_resets_a_day ascii_builtins).
  apply Forall_app. split; by apply Forall_replicate.
Defined.

(** ** More on the HTTP dispatch *)

Section MoreHttp.
Context `{!Builtins}.
Import Http.

(** X20: a row of the API table answers only to its own method: the same
    path under the other method gets the 404 answer, whatever the dish
    would have said. *)
Theorem api_routes_reject_other_method (m : method) (p : string) (w : world) :
  (m, p) ∈ api_routes →
  handle (other_method m) p w = not_found.
Proof.
  rewrite api_route_cases.
  by intros [[-> [-> | ->]] | [-> [-> | ->]]].
Qed.

(** X21: the handlers answer with no status code but 200 and 404; the
    404 answer is always the same plain text, and a 200 answer is either
    the dashboard page or a JSON body. *)
Theorem replies_are_200_or_404 (m : method) (p : string) (w : world) :
  let r := handle m p w in
  (code r = 200%Z ∨ code r = 404%Z)
  ∧ (code r = 404%Z → r = not_found)
  ∧ (code r = 200%Z →
     (content r = IndexHtml ∧ ctype r = "text/html; charset=utf-8")
     ∨ (ctype r = json_ctype ∧ ∃ j, content r = JsonOf j)).
Proof.
  cbv zeta. destruct m; cbn [handle]; unfold do_GET, do_POST.
  - case_bool_decide; [cbn; naive_solver|].
    destruct (String.eqb p "/api/health"); [cbn; naive_solver|].
    destruct (String.eqb p "/api/status"); cbn; naive_solver.
  - destruct (String.eqb p "/api/reset"); [cbn; naive_solver|].
    destruct (String.eqb p "/api/keepalive"); cbn; naive_solver.
Qed.
End MoreHttp.

(** X20 at a status request sent with POST. *)
Lemma api_routes_reject_other_method_witness :
  @Http.handle ascii_builtins Http.POST "/api/status" reachable_dish
  = Http.not_found.
Proof.
  apply (@api_routes_reject_other_method ascii_builtins Http.GET).
  apply api_route_cases. left. split; [done | by right].
Defined.
